(** * gotobrainfuck: a shallow embedding of [gotobrainfuck.py]

    The interpreter is an eight-instruction tape machine whose only control
    construct is a data-driven goto.  The Python program is embedded
    function by function: Python integers are [Z], the [bytearray] tape is a
    [list Z], the token tuple is a [list Token], mutation of the [Context]
    and [SourceCode] objects is state passing in a state-and-exception monad
    (an exception leaves the mutations made so far in place, as in Python),
    and the [while] loop of [Code.exec], which need not terminate, is
    iterated under an explicit iteration bound. *)

From stdpp Require Import base list.
From Equations Require Import Equations.
From Stdlib Require Import ZArith Lia ZifyBool.
From Stdlib.Strings Require Import Byte.
From Stdlib.Strings Require String.
Import String.StringSyntax.
Delimit Scope string_scope with string.

Local Open Scope Z_scope.

(** ** Host-language primitives *)

Module Py.

(** The exceptions the program can raise, by their Python class. *)
Inductive exn : Type :=
| TimeoutError
| IndexError
| ZeroDivisionError
| ValueError
| UnicodeEncodeError
| TypeError
| SyntaxError
| NotImplementedError.

Inductive result (A : Type) : Type :=
| Ok (a : A)
| Raise (e : exn).
Arguments Ok {A} a.
Arguments Raise {A} e.

(** A method of an object of type [S]: it returns or raises, and either
    way leaves the object in its mutated state. *)
Definition M (S A : Type) : Type := S -> result A * S.

Definition ret {S A} (a : A) : M S A := fun s => (Ok a, s).
Definition raise {S A} (e : exn) : M S A := fun s => (Raise e, s).
Definition bind {S A B} (m : M S A) (k : A -> M S B) : M S B :=
  fun s => match m s with
           | (Ok a, s') => k a s'
           | (Raise e, s') => (Raise e, s')
           end.
Definition lift {S A} (r : result A) : M S A := fun s => (r, s).

(** Sequence index normalisation: [l[i]] accepts [-len <= i < len],
    negative indices counting from the end. *)
Definition index (len : nat) (i : Z) : option nat :=
  if (0 <=? i) && (i <? Z.of_nat len) then Some (Z.to_nat i)
  else if (- Z.of_nat len <=? i) && (i <? 0) then Some (Z.to_nat (Z.of_nat len + i))
  else None.

(** [l[i]] on a tuple or bytearray. *)
Definition getitem {A} (l : list A) (i : Z) : result A :=
  match index (length l) i with
  | Some n => match l !! n with
              | Some x => Ok x
              | None => Raise IndexError
              end
  | None => Raise IndexError
  end.

(** [l[i] = x] on a bytearray. *)
Definition setitem {A} (l : list A) (i : Z) (x : A) : result (list A) :=
  match index (length l) i with
  | Some n => Ok (<[n := x]> l)
  | None => Raise IndexError
  end.

(** Slice bound normalisation: a negative bound counts from the end, and
    the result is clamped to [0, len]. *)
Definition clamp (len : nat) (i : Z) : nat :=
  Z.to_nat (Z.min (Z.of_nat len) (if i <? 0 then Z.max 0 (Z.of_nat len + i) else i)).

(** [l[lo:hi]]. *)
Definition slice {A} (l : list A) (lo hi : Z) : list A :=
  take (clamp (length l) hi - clamp (length l) lo) (drop (clamp (length l) lo) l).

(** [a % b] on integers. *)
Definition mod_ (a b : Z) : result Z :=
  if b =? 0 then Raise ZeroDivisionError else Ok (a mod b).

(** [bytes(xs)] for an iterable of integers. *)
Definition bytes (xs : list Z) : result (list Z) :=
  if forallb (fun x => (0 <=? x) && (x <? 256)) xs then Ok xs else Raise ValueError.

(** [ord(b)] for a bytes object. *)
Definition ord (b : list Z) : result Z :=
  match b with
  | [x] => Ok x
  | _ => Raise TypeError
  end.

End Py.

Import Py.

Declare Scope py_scope.
Delimit Scope py_scope with py.
Notation "x <- m ;; k" := (bind m (fun x => k))
  (at level 100, m at next level, right associativity) : py_scope.
Notation "m ;;; k" := (bind m (fun _ => k))
  (at level 100, right associativity) : py_scope.
Local Open Scope py_scope.

(** ** class SourceCode *)

Record SourceCode : Type := mkSourceCode {
  code : list byte;
  src_ptr : Z
}.

Definition SourceCode_init (code : list byte) : SourceCode :=
  {| code := code; src_ptr := 0 |}.

Definition SourceCode_read_next_token : M SourceCode (list byte) :=
  fun self =>
    let token := slice (code self) (src_ptr self) (src_ptr self + 1) in
    (Ok token, {| code := code self; src_ptr := src_ptr self + 1 |}).

(** ** class Context *)

(** The input collaborator.  [Context.read] tests the stream against
    [typing.BinaryIO]; a stream that is not an instance of it is read and
    mapped through [ord], which expects characters. *)
Inductive stream : Type :=
| BinaryIO (data : list Z)      (* instance of typing.BinaryIO; yields bytes *)
| str_stream (data : list Z)    (* any other stream yielding str, as code points *)
| bytes_stream (data : list Z). (* any other stream yielding bytes *)

(** [f.read(n)]: at most [n] items, or everything left when [n] is negative. *)
Definition stream_read (n : Z) (data : list Z) : list Z * list Z :=
  if n <? 0 then (data, [])
  else (take (Z.to_nat n) data, drop (Z.to_nat n) data).

(** The output collaborator, by what [Context.write] does with it.
    [Context.write] tests the sink against [typing.TextIO],
    [io.TextIOWrapper] and [io.StringIO]: a sink of one of these classes is
    handed a [str], any other sink is handed the [bytes] object.  A text
    sink encodes what it is handed when it is written to, and raises
    [UnicodeEncodeError] on a character its encoding does not have
    ([io.StringIO] and a UTF-8 wrapper have them all, an ASCII wrapper only
    those below 128); a sink that takes only [str] raises [TypeError] when
    it is handed [bytes]. *)
Inductive sink : Type :=
| text_sink (encodes : Z -> bool) (* of one of the three classes; the code points it encodes *)
| bytes_sink                      (* any other sink, whose write takes bytes *)
| str_only_sink.                  (* any other sink, whose write takes only str *)

(** The [Context] object.  Its attribute [output_file] is the sink object:
    [output_kind] is what kind of sink it is, which never changes, and
    [output_file] what the sink has received so far. *)
Record Context : Type := mkContext {
  buffer : list Z;
  ptr : Z;
  input_file : option stream;
  output_kind : sink;
  output_file : list Z;  (* the bytes written to the sink so far, oldest first *)
  num_cycles_left : Z
}.

Definition Context_init (input_file : option stream) (output_file : sink)
    (buffer_size num_cycles_limit : Z) : Context :=
  {| buffer := replicate (Z.to_nat buffer_size) 0;
     ptr := 0;
     input_file := input_file;
     output_kind := output_file;
     output_file := [];
     num_cycles_left := num_cycles_limit |}.

Definition set_buffer (b : list Z) (c : Context) : Context :=
  {| buffer := b; ptr := ptr c; input_file := input_file c;
     output_kind := output_kind c;
     output_file := output_file c; num_cycles_left := num_cycles_left c |}.
Definition set_ptr (p : Z) (c : Context) : Context :=
  {| buffer := buffer c; ptr := p; input_file := input_file c;
     output_kind := output_kind c;
     output_file := output_file c; num_cycles_left := num_cycles_left c |}.
Definition set_input_file (i : option stream) (c : Context) : Context :=
  {| buffer := buffer c; ptr := ptr c; input_file := i;
     output_kind := output_kind c;
     output_file := output_file c; num_cycles_left := num_cycles_left c |}.
Definition set_output_file (o : list Z) (c : Context) : Context :=
  {| buffer := buffer c; ptr := ptr c; input_file := input_file c;
     output_kind := output_kind c;
     output_file := o; num_cycles_left := num_cycles_left c |}.
Definition set_num_cycles_left (n : Z) (c : Context) : Context :=
  {| buffer := buffer c; ptr := ptr c; input_file := input_file c;
     output_kind := output_kind c;
     output_file := output_file c; num_cycles_left := n |}.

Definition Context_read (n : Z) : M Context (list Z) :=
  fun self =>
    match input_file self with
    | None => (Ok [], self)
    | Some (BinaryIO data) =>
        let '(s, rest) := stream_read n data in
        (Ok s, set_input_file (Some (BinaryIO rest)) self)
    | Some (str_stream data) =>
        let '(s, rest) := stream_read n data in
        (bytes s, set_input_file (Some (str_stream rest)) self)
    | Some (bytes_stream data) =>
        let '(s, rest) := stream_read n data in
        ((* ord applied to an int *)
         match s with [] => Ok [] | _ :: _ => Raise TypeError end,
         set_input_file (Some (bytes_stream rest)) self)
    end.

(** [Context.write]: a sink of one of the three text classes is written
    the string of the characters [chr b] of the bytes, which it must
    encode; any other sink is written the bytes themselves.  A write that
    raises leaves the sink as it was; after a write that returns the sink
    is flushed. *)
Definition Context_write (bytes_ : list Z) : M Context unit :=
  fun self =>
    match output_kind self with
    | text_sink encodes =>
        if forallb encodes bytes_
        then (Ok tt, set_output_file (output_file self ++ bytes_) self)
        else (Raise UnicodeEncodeError, self)
    | bytes_sink => (Ok tt, set_output_file (output_file self ++ bytes_) self)
    | str_only_sink => (Raise TypeError, self)
    end.

Definition Context_current_value : M Context Z :=
  fun self => (getitem (buffer self) (ptr self), self).

Definition Context_set_current_value (value : Z) : M Context unit :=
  fun self =>
    match setitem (buffer self) (ptr self) (Z.land value 255) with
    | Ok b => (Ok tt, set_buffer b self)
    | Raise e => (Raise e, self)
    end.

Definition Context_pointer : M Context Z :=
  fun self => (Ok (ptr self), self).

Definition Context_set_pointer (value : Z) : M Context unit :=
  fun self =>
    match mod_ value (Z.of_nat (length (buffer self))) with
    | Ok p => (Ok tt, set_ptr p self)
    | Raise e => (Raise e, self)
    end.

(** ** class Token and its subclasses *)

Inductive Token : Type :=
| PrintToken
| ReadToken
| PlusToken
| MinusToken
| ForwardToken
| BackwardToken
| GoToToken
| ExitToken.

Global Instance Token_eq_dec : EqDecision Token.
Proof. solve_decision. Defined.

(** [token.exec(context)], dispatched on the class of [token].  [ExitToken]
    inherits the base method. *)
Definition Token_exec (token : Token) : M Context Z :=
  match token with
  | ExitToken => raise NotImplementedError
  | GoToToken => Context_current_value
  | PlusToken =>
      v <- Context_current_value;;
      Context_set_current_value (v + 1);;;
      ret (-1)
  | MinusToken =>
      v <- Context_current_value;;
      Context_set_current_value (v - 1);;;
      ret (-1)
  | ForwardToken =>
      p <- Context_pointer;;
      Context_set_pointer (p + 1);;;
      ret (-1)
  | BackwardToken =>
      p <- Context_pointer;;
      Context_set_pointer (p - 1);;;
      ret (-1)
  | PrintToken =>
      v <- Context_current_value;;
      b <- lift (bytes [v]);;
      Context_write b;;;
      ret (-1)
  | ReadToken =>
      b <- Context_read 1;;
      v <- lift (ord (match b with [] => [0] | _ => b end));;
      Context_set_current_value v;;;
      ret (-1)
  end.

Definition Context_exec (token : Token) : M Context Z :=
  fun self =>
    if num_cycles_left self =? 0 then (Raise TimeoutError, self)
    else Token_exec token (set_num_cycles_left (num_cycles_left self - 1) self).

(** ** class Code *)

Record Code : Type := mkCode {
  tokens : list Token
}.

Import ByteNotations.

Global Instance byte_eq_dec : EqDecision byte := Byte.byte_eq_dec.

(** The [if]/[elif] chain of [Code.parse] on one token of the source. *)
Definition new_token (token : list byte) : result Token :=
  if decide (token = ["."%byte]) then Ok PrintToken
  else if decide (token = [","%byte]) then Ok ReadToken
  else if decide (token = ["+"%byte]) then Ok PlusToken
  else if decide (token = ["-"%byte]) then Ok MinusToken
  else if decide (token = [">"%byte]) then Ok ForwardToken
  else if decide (token = ["<"%byte]) then Ok BackwardToken
  else if decide (token = ["^"%byte]) then Ok GoToToken
  else if decide (token = [";"%byte]) then Ok ExitToken
  else Raise SyntaxError.

(** The [while token := source_code.read_next_token()] loop of [Code.parse],
    from the current position of [source_code] and with the tokens
    collected so far.  It ends on the empty slice read at the end of the
    source, so it is defined by recursion on the distance to the end. *)
Equations? Code_parse_loop (source_code : SourceCode) (tokens : list Token)
  : result (list Token) * SourceCode
  by wf (Z.to_nat (Z.of_nat (length (code source_code)) - src_ptr source_code)) lt :=
  Code_parse_loop source_code tokens
    with Equations.Prop.Logic.inspect (SourceCode_read_next_token source_code) := {
    | exist _ (Raise e, source_code') _ => (Raise e, source_code')
    | exist _ (Ok [], source_code') _ => (Ok tokens, source_code')
    | exist _ (Ok (b :: token), source_code') Hread with new_token (b :: token) => {
        | Raise e => (Raise e, source_code')
        | Ok t => Code_parse_loop source_code' (tokens ++ [t]) } }.
Proof.
  (* a non-empty slice at [src_ptr] means that [src_ptr] is before the end *)
  destruct (Z_lt_ge_dec (src_ptr source_code) (Z.of_nat (length (code source_code))))
    as [Hlt|Hge]; [lia|].
  exfalso.
  match goal with Htok : slice _ _ _ = _ :: _ |- _ => revert Htok end.
  unfold slice, clamp.
  destruct (src_ptr source_code <? 0) eqn:E1; [lia|].
  destruct (src_ptr source_code + 1 <? 0) eqn:E2; [lia|].
  replace (Z.to_nat (Z.min (Z.of_nat (length (code source_code))) (src_ptr source_code)))
    with (length (code source_code)) by lia.
  replace (Z.to_nat (Z.min (Z.of_nat (length (code source_code))) (src_ptr source_code + 1)))
    with (length (code source_code)) by lia.
  rewrite Nat.sub_diag. discriminate.
Qed.

Definition Code_parse : M SourceCode Code :=
  fun source_code =>
    match Code_parse_loop source_code [] with
    | (Ok tokens, source_code') => (Ok (mkCode tokens), source_code')
    | (Raise e, source_code') => (Raise e, source_code')
    end.

(** One evaluation of the loop condition of [Code.exec] followed, when the
    token is not an [ExitToken], by one evaluation of the loop body:
    [None] when the loop ends, [Some code_pt'] when it goes round again. *)
Definition Code_exec_iter (self : Code) (code_pt : Z) : M Context (option Z) :=
  token <- lift (getitem (tokens self) code_pt);;
  if decide (token = ExitToken) then ret None
  else
    pt <- Context_exec token;;
    ret (Some (if pt <? 0 then code_pt + 1 else pt)).

(** The [while] loop of [Code.exec] from [code_pt], cut after [gas]
    iterations: [None] when the loop is still running then. *)
Fixpoint Code_exec_from (gas : nat) (self : Code) (code_pt : Z) (context : Context)
  : option (result unit * Context) :=
  match gas with
  | O => None
  | S gas' =>
      match Code_exec_iter self code_pt context with
      | (Raise e, context') => Some (Raise e, context')
      | (Ok None, context') => Some (Ok tt, context')
      | (Ok (Some code_pt'), context') => Code_exec_from gas' self code_pt' context'
      end
  end.

Definition Code_exec (gas : nat) (self : Code) (context : Context)
  : option (result unit * Context) :=
  Code_exec_from gas self 0 context.

(** The module entry point: the context is built, the source is parsed,
    the code is run. *)
Definition éxec (gas : nat) (source_code : list byte) (input_file : option stream)
    (output_file : sink) (buffer_size num_cycles_limit : Z)
  : option (result unit * Context) :=
  let context := Context_init input_file output_file buffer_size num_cycles_limit in
  match Code_parse (SourceCode_init source_code) with
  | (Raise e, _) => Some (Raise e, context)
  | (Ok code, _) => Code_exec gas code context
  end.

(** The machine after exactly [n] successful iterations of the loop, each
    of which dispatches one instruction; [None] when the loop stops (by
    [ExitToken] or by an exception) before that. *)
Fixpoint Code_iterate (n : nat) (self : Code) (code_pt : Z) (context : Context)
  : option (Z * Context) :=
  match n with
  | O => Some (code_pt, context)
  | S n' =>
      match Code_exec_iter self code_pt context with
      | (Ok (Some code_pt'), context') => Code_iterate n' self code_pt' context'
      | _ => None
      end
  end.

(** The states of the loop of [Code.exec] that a run started on [context0]
    passes through, at the head of an iteration. *)
Inductive reachable (self : Code) (context0 : Context) : Z -> Context -> Prop :=
| reachable_start : reachable self context0 0 context0
| reachable_next code_pt context code_pt' context' :
    reachable self context0 code_pt context ->
    Code_exec_iter self code_pt context = (Ok (Some code_pt'), context') ->
    reachable self context0 code_pt' context'.

(** ** Specification vocabulary *)

Definition cells_ok (c : Context) : Prop :=
  Forall (fun v => 0 <= v < 256) (buffer c).

Definition cursor_ok (c : Context) : Prop :=
  0 <= ptr c < Z.of_nat (length (buffer c)).

(** The sink takes the byte [v] when [Context.write] hands it over. *)
Definition sink_takes (s : sink) (v : Z) : Prop :=
  match s with
  | text_sink encodes => encodes v = true
  | bytes_sink => True
  | str_only_sink => False
  end.

(** The context as [Context.exec] hands it to [token.exec]. *)
Definition tick (c : Context) : Context :=
  set_num_cycles_left (num_cycles_left c - 1) c.

(** The change an instruction makes to the value of the current cell. *)
Definition delta (token : Token) : Z :=
  match token with
  | PlusToken => 1
  | MinusToken => -1
  | _ => 0
  end.

Definition net_delta (ops : list Token) : Z :=
  foldr (fun token acc => delta token + acc) 0 ops.

Definition plus_or_minus (token : Token) : Prop :=
  token = PlusToken \/ token = MinusToken.

(** The instruction table of the language as the specification gives it:
    one source byte per instruction, every other byte outside it. *)
Definition table (b : byte) : option Token :=
  match b with
  | "."%byte => Some PrintToken
  | ","%byte => Some ReadToken
  | "+"%byte => Some PlusToken
  | "-"%byte => Some MinusToken
  | ">"%byte => Some ForwardToken
  | "<"%byte => Some BackwardToken
  | "^"%byte => Some GoToToken
  | ";"%byte => Some ExitToken
  | _ => None
  end.

(** ** Printing *)

(** [Token.__str__]: the name of the class of the token. *)
Definition Token_str (self : Token) : String.string :=
  match self with
  | PrintToken => "PrintToken"
  | ReadToken => "ReadToken"
  | PlusToken => "PlusToken"
  | MinusToken => "MinusToken"
  | ForwardToken => "ForwardToken"
  | BackwardToken => "BackwardToken"
  | GoToToken => "GoToToken"
  | ExitToken => "ExitToken"
  end%string.

(** [Token.__repr__] has the same body as [Token.__str__]. *)
Definition Token_repr (self : Token) : String.string :=
  match self with
  | PrintToken => "PrintToken"
  | ReadToken => "ReadToken"
  | PlusToken => "PlusToken"
  | MinusToken => "MinusToken"
  | ForwardToken => "ForwardToken"
  | BackwardToken => "BackwardToken"
  | GoToToken => "GoToToken"
  | ExitToken => "ExitToken"
  end%string.

(** The items of a tuple after the first, as [repr] of a tuple writes them. *)
Fixpoint tuple_repr_rest (items : list Token) : String.string :=
  match items with
  | [] => ""%string
  | t :: items' => String.append ", " (String.append (Token_repr t) (tuple_repr_rest items'))
  end.

(** [repr] of a tuple of tokens: the [repr] of the items between
    parentheses, separated by a comma and a space, with a trailing comma
    for a tuple of one item. *)
Definition tuple_repr (items : list Token) : String.string :=
  match items with
  | [] => "()"%string
  | [t] => String.append "(" (String.append (Token_repr t) ",)")
  | t :: items' =>
      String.append "("
        (String.append (Token_repr t) (String.append (tuple_repr_rest items') ")"))
  end.

(** [Code.__str__] and [Code.__repr__]. *)
Definition Code_str (self : Code) : String.string :=
  String.append "Code" (String.append ": " (tuple_repr (tokens self))).

Definition Code_repr (self : Code) : String.string :=
  String.append "Code" (String.append ": " (tuple_repr (tokens self))).

(** ** More specification vocabulary *)

(** The items a stream still holds. *)
Definition stream_data (s : stream) : list Z :=
  match s with
  | BinaryIO data => data
  | str_stream data => data
  | bytes_stream data => data
  end.

(** The stream [s'] is the stream [s] after some reads: the same kind of
    stream, holding a tail of what [s] holds. *)
Definition stream_later (s s' : stream) : Prop :=
  match s, s' with
  | BinaryIO data, BinaryIO data' => exists n, data' = drop n data
  | str_stream data, str_stream data' => exists n, data' = drop n data
  | bytes_stream data, bytes_stream data' => exists n, data' = drop n data
  | _, _ => False
  end.

Definition input_later (i i' : option stream) : Prop :=
  match i, i' with
  | None, None => True
  | Some s, Some s' => stream_later s s'
  | _, _ => False
  end.

(** The instructions that touch only the tape and the sink and always
    advance. *)
Definition straight (token : Token) : Prop :=
  token = PlusToken \/ token = MinusToken \/ token = ForwardToken \/
  token = BackwardToken \/ token = PrintToken.

(** The number of [PrintToken]s of a stretch of instructions. *)
Definition prints (ops : list Token) : nat :=
  length (filter (fun token => token = PrintToken) ops).

(** A method of [Context] that neither reads nor writes the budget: run on
    a context with another budget it does the same, and leaves that other
    budget in place. *)
Definition budget_blind {A} (m : M Context A) : Prop :=
  forall (k : Z) (c : Context),
    m (set_num_cycles_left k c) = (fst (m c), set_num_cycles_left k (snd (m c))).

(** An input that yields bytes: absent, a [typing.BinaryIO], a text stream
    of characters below 256, or any other stream with nothing left. *)
Definition byte_input (i : option stream) : Prop :=
  match i with
  | None => True
  | Some (BinaryIO _) => True
  | Some (str_stream data) => Forall (fun x => 0 <= x < 256) data
  | Some (bytes_stream data) => data = []
  end.

(** The item a read of one item takes from an input that yields bytes, 0
    when the input is absent or has nothing left, and the input after
    that read. *)
Definition input_head (i : option stream) : Z :=
  match i with
  | Some s => match stream_data s with
              | x :: _ => x
              | [] => 0
              end
  | None => 0
  end.

Definition input_tail (i : option stream) : option stream :=
  match i with
  | None => None
  | Some (BinaryIO data) => Some (BinaryIO (drop 1 data))
  | Some (str_stream data) => Some (str_stream (drop 1 data))
  | Some (bytes_stream data) => Some (bytes_stream (drop 1 data))
  end.

(** The pairs of instructions of which the second undoes the first. *)
Definition inverse_pair (t1 t2 : Token) : Prop :=
  (t1 = PlusToken /\ t2 = MinusToken) \/ (t1 = MinusToken /\ t2 = PlusToken) \/
  (t1 = ForwardToken /\ t2 = BackwardToken) \/ (t1 = BackwardToken /\ t2 = ForwardToken).

(** The change an instruction makes to the cursor, before wrapping. *)
Definition shift (token : Token) : Z :=
  match token with
  | ForwardToken => 1
  | BackwardToken => -1
  | _ => 0
  end.

Definition net_shift (ops : list Token) : Z :=
  foldr (fun token acc => shift token + acc) 0 ops.

Definition forward_or_backward (token : Token) : Prop :=
  token = ForwardToken \/ token = BackwardToken.

(** * Properties *)

(** ** Indexing *)

(** A non-empty slice at [ptr] means that [ptr] is before the end. *)
Lemma slice_one_nonempty {A} (l : list A) (p : Z) :
  slice l p (p + 1) <> [] -> p < Z.of_nat (length l).
Proof.
  intros H. destruct (Z_lt_ge_dec p (Z.of_nat (length l))) as [|Hge]; [assumption|].
  exfalso. apply H. unfold slice, clamp.
  assert (Hp : (p <? 0) = false) by lia.
  assert (Hp1 : (p + 1 <? 0) = false) by lia.
  rewrite Hp, Hp1.
  replace (Z.to_nat (Z.min (Z.of_nat (length l)) p)) with (length l) by lia.
  replace (Z.to_nat (Z.min (Z.of_nat (length l)) (p + 1))) with (length l) by lia.
  rewrite Nat.sub_diag. reflexivity.
Qed.

Section Indexing.
Context {A : Type}.
Implicit Types (l : list A) (i : Z) (x : A).

Lemma index_inrange (len : nat) i :
  0 <= i < Z.of_nat len -> index len i = Some (Z.to_nat i).
Proof.
  intros H. unfold index.
  destruct (0 <=? i) eqn:E1; [|lia].
  destruct (i <? Z.of_nat len) eqn:E2; [reflexivity|lia].
Qed.

Lemma index_beyond (len : nat) i :
  Z.of_nat len <= i -> index len i = None.
Proof.
  intros H. unfold index.
  destruct (i <? Z.of_nat len) eqn:E2; [lia|].
  destruct (i <? 0) eqn:E3; [lia|].
  rewrite !andb_false_r. reflexivity.
Qed.

Lemma getitem_inrange l i :
  0 <= i < Z.of_nat (length l) ->
  exists x, l !! Z.to_nat i = Some x /\ getitem l i = Ok x.
Proof.
  intros H. unfold getitem. rewrite index_inrange by assumption.
  destruct (lookup_lt_is_Some_2 l (Z.to_nat i)) as [x Hx]; [lia|].
  exists x. rewrite Hx. split; reflexivity.
Qed.

Lemma getitem_lookup l i x :
  0 <= i -> l !! Z.to_nat i = Some x -> getitem l i = Ok x.
Proof.
  intros Hi Hx. pose proof (lookup_lt_Some _ _ _ Hx) as Hlt.
  unfold getitem. rewrite index_inrange by lia. rewrite Hx. reflexivity.
Qed.

Lemma getitem_beyond l i :
  Z.of_nat (length l) <= i -> getitem l i = Raise IndexError.
Proof. intros H. unfold getitem. rewrite index_beyond by assumption. reflexivity. Qed.

Lemma getitem_Ok l i x :
  0 <= i -> getitem l i = Ok x ->
  i < Z.of_nat (length l) /\ l !! Z.to_nat i = Some x.
Proof.
  intros Hi H. destruct (Z_lt_ge_dec i (Z.of_nat (length l))) as [Hlt|Hge].
  - split; [assumption|].
    destruct (getitem_inrange l i) as (y & Hy & Hg); [lia|]. congruence.
  - rewrite getitem_beyond in H by lia. discriminate.
Qed.

Lemma setitem_inrange l i x :
  0 <= i < Z.of_nat (length l) -> setitem l i x = Ok (<[Z.to_nat i := x]> l).
Proof. intros H. unfold setitem. rewrite index_inrange by assumption. reflexivity. Qed.

Lemma setitem_beyond l i x :
  Z.of_nat (length l) <= i -> setitem l i x = Raise IndexError.
Proof. intros H. unfold setitem. rewrite index_beyond by assumption. reflexivity. Qed.

Lemma setitem_length l i x l' : setitem l i x = Ok l' -> length l' = length l.
Proof.
  unfold setitem. destruct (index (length l) i); [|discriminate].
  intros [= <-]. apply length_insert.
Qed.

Lemma setitem_Forall (P : A -> Prop) l i x l' :
  setitem l i x = Ok l' -> Forall P l -> P x -> Forall P l'.
Proof.
  unfold setitem. destruct (index (length l) i); [|discriminate].
  intros [= <-]. apply Forall_insert.
Qed.

Lemma slice_at l1 x l2 :
  slice (l1 ++ x :: l2) (Z.of_nat (length l1)) (Z.of_nat (length l1) + 1) = [x].
Proof.
  unfold slice, clamp. rewrite length_app. simpl length.
  destruct (Z.of_nat (length l1) <? 0) eqn:E1; [lia|].
  destruct (Z.of_nat (length l1) + 1 <? 0) eqn:E2; [lia|].
  replace (Z.to_nat (Z.min (Z.of_nat (length l1 + S (length l2))) (Z.of_nat (length l1))))
    with (length l1) by lia.
  replace (Z.to_nat (Z.min (Z.of_nat (length l1 + S (length l2))) (Z.of_nat (length l1) + 1)))
    with (S (length l1)) by lia.
  replace (S (length l1) - length l1)%nat with 1%nat by lia.
  rewrite drop_app_length. reflexivity.
Qed.

Lemma slice_at_end l :
  slice l (Z.of_nat (length l)) (Z.of_nat (length l) + 1) = [].
Proof.
  destruct (slice l (Z.of_nat (length l)) (Z.of_nat (length l) + 1)) eqn:E; [reflexivity|].
  assert (H : slice l (Z.of_nat (length l)) (Z.of_nat (length l) + 1) <> []) by (rewrite E; discriminate).
  apply slice_one_nonempty in H. lia.
Qed.

End Indexing.

Lemma land_255 (v : Z) : Z.land v 255 = v mod 256.
Proof. change 255 with (Z.ones 8). rewrite Z.land_ones by lia. reflexivity. Qed.

Lemma land_255_range (v : Z) : 0 <= Z.land v 255 < 256.
Proof. rewrite land_255. apply Z.mod_pos_bound. lia. Qed.

(** ** The effect of one instruction *)

Ltac unfold_py :=
  unfold Token_exec, Context_exec, Context_current_value, Context_set_current_value,
    Context_pointer, Context_set_pointer, Context_write, Context_read,
    bind, ret, raise, lift, mod_ in *.

Ltac inv_pair :=
  repeat match goal with
         | H : (_, _) = (_, _) |- _ => inversion H; subst; clear H
         | H : Ok _ = Ok _ |- _ => inversion H; subst; clear H
         | H : Raise _ = Raise _ |- _ => inversion H; subst; clear H
         | H : Ok _ = Raise _ |- _ => discriminate H
         | H : Raise _ = Ok _ |- _ => discriminate H
         end.

Ltac break_match :=
  match goal with
  | H : context [match ?x with _ => _ end] |- _ => destruct x eqn:?
  | |- context [match ?x with _ => _ end] => destruct x eqn:?
  end.

Ltac crunch := unfold_py; repeat (inv_pair; simpl in *; try break_match); inv_pair.

Lemma Code_exec_iter_unfold (self : Code) (code_pt : Z) (c : Context) :
  Code_exec_iter self code_pt c =
  match getitem (tokens self) code_pt with
  | Raise e => (Raise e, c)
  | Ok token =>
      if decide (token = ExitToken) then (Ok None, c)
      else if num_cycles_left c =? 0 then (Raise TimeoutError, c)
      else match Token_exec token (tick c) with
           | (Ok pt, c') => (Ok (Some (if pt <? 0 then code_pt + 1 else pt)), c')
           | (Raise e, c') => (Raise e, c')
           end
  end.
Proof.
  unfold Code_exec_iter, Context_exec, bind, lift, ret, tick.
  destruct (getitem (tokens self) code_pt) as [token|e]; [|reflexivity].
  destruct (decide (token = ExitToken)); [reflexivity|].
  destruct (num_cycles_left c =? 0); [reflexivity|].
  destruct (Token_exec token _) as [[pt|e] c']; reflexivity.
Qed.

(** What no instruction changes, and what every instruction preserves. *)
Lemma Token_exec_frame (token : Token) (c : Context) (r : result Z) (c' : Context) :
  Token_exec token c = (r, c') ->
  num_cycles_left c' = num_cycles_left c /\
  length (buffer c') = length (buffer c) /\
  (cells_ok c -> cells_ok c') /\
  (cursor_ok c -> cursor_ok c').
Proof.
  unfold cells_ok, cursor_ok.
  destruct token; intros H; crunch;
    repeat match goal with
           | H : setitem _ _ _ = Ok _ |- _ =>
               pose proof (setitem_length _ _ _ _ H);
               pose proof (fun P => setitem_Forall P _ _ _ _ H);
               clear H
           end;
    (split; [reflexivity|]); (split; [auto; lia|]);
    (split; [auto using land_255_range|]);
    try (intros; pose proof (Z.mod_pos_bound (ptr c + 1) (Z.of_nat (length (buffer c))));
         pose proof (Z.mod_pos_bound (ptr c - 1) (Z.of_nat (length (buffer c)))));
    try lia; auto.
Qed.

(** The control-transfer value of an instruction that returns: the current
    cell for [GoToToken], [-1] for the others. *)
Lemma Token_exec_signal (token : Token) (c : Context) (pt : Z) (c' : Context) :
  Token_exec token c = (Ok pt, c') ->
  (token = GoToToken /\ getitem (buffer c) (ptr c) = Ok pt /\ c' = c) \/
  (token <> GoToToken /\ token <> ExitToken /\ pt = -1).
Proof.
  destruct token; intros H; crunch;
    solve [ left; auto | right; repeat split; discriminate || reflexivity ].
Qed.

(** ** One iteration of the loop *)

Lemma Code_exec_iter_next (self : Code) (code_pt : Z) (c : Context) (code_pt' : Z) (c' : Context) :
  Code_exec_iter self code_pt c = (Ok (Some code_pt'), c') ->
  exists token pt,
    getitem (tokens self) code_pt = Ok token /\
    token <> ExitToken /\
    num_cycles_left c <> 0 /\
    Token_exec token (tick c) = (Ok pt, c') /\
    code_pt' = (if pt <? 0 then code_pt + 1 else pt).
Proof.
  rewrite Code_exec_iter_unfold.
  destruct (getitem (tokens self) code_pt) as [token|e]; [|discriminate].
  destruct (decide (token = ExitToken)); [discriminate|].
  destruct (num_cycles_left c =? 0) eqn:E; [discriminate|].
  destruct (Token_exec token (tick c)) as [[pt|e] c1] eqn:Ht; [|discriminate].
  intros [= <- <-]. exists token, pt. repeat split; auto. lia.
Qed.

Lemma Code_exec_iter_inv (self : Code) (code_pt : Z) (c : Context) (code_pt' : Z) (c' : Context) :
  Code_exec_iter self code_pt c = (Ok (Some code_pt'), c') ->
  num_cycles_left c <> 0 /\
  num_cycles_left c' = num_cycles_left c - 1 /\
  length (buffer c') = length (buffer c) /\
  (cells_ok c -> cells_ok c') /\
  (cursor_ok c -> cursor_ok c') /\
  (0 <= code_pt -> 0 <= code_pt').
Proof.
  intros H. apply Code_exec_iter_next in H as (token & pt & _ & _ & Hfuel & Hexec & ->).
  destruct (Token_exec_frame _ _ _ _ Hexec) as (Hn & Hlen & Hcells & Hcur).
  simpl in Hn, Hlen.
  split; [assumption|]. split; [assumption|]. split; [assumption|].
  split; [exact Hcells|]. split; [exact Hcur|].
  intros Hpc. destruct (pt <? 0) eqn:E; lia.
Qed.

(** ** Runs *)

Lemma Code_iterate_snoc (self : Code) (n : nat) :
  forall code_pt c code_pt1 c1 code_pt2 c2,
    Code_iterate n self code_pt c = Some (code_pt1, c1) ->
    Code_exec_iter self code_pt1 c1 = (Ok (Some code_pt2), c2) ->
    Code_iterate (S n) self code_pt c = Some (code_pt2, c2).
Proof.
  induction n as [|n IH]; intros code_pt c code_pt1 c1 code_pt2 c2 Hn Hstep.
  - injection Hn as <- <-. simpl. rewrite Hstep. reflexivity.
  - simpl in Hn. change (Code_iterate (S (S n)) self code_pt c)
      with (match Code_exec_iter self code_pt c with
            | (Ok (Some code_pt'), c') => Code_iterate (S n) self code_pt' c'
            | _ => None
            end).
    destruct (Code_exec_iter self code_pt c) as [[[pc'|]|e] c']; try discriminate.
    eapply IH; eassumption.
Qed.

Lemma reachable_iterate (self : Code) (c0 : Context) (code_pt : Z) (c : Context) :
  reachable self c0 code_pt c <-> exists n, Code_iterate n self 0 c0 = Some (code_pt, c).
Proof.
  split.
  - induction 1 as [|pc c pc' c' _ [n IH] Hstep].
    + exists O. reflexivity.
    + exists (S n). eapply Code_iterate_snoc; eassumption.
  - intros [n Hn]. revert code_pt c Hn.
    induction n as [|n IH]; intros code_pt c Hn.
    + injection Hn as <- <-. constructor.
    + assert (exists pc1 c1, Code_iterate n self 0 c0 = Some (pc1, c1) /\
                             Code_exec_iter self pc1 c1 = (Ok (Some code_pt), c))
        as (pc1 & c1 & H1 & H2).
      { clear IH. revert Hn. generalize 0 as pc. generalize c0 as ctx.
        induction n as [|n IH]; intros ctx pc Hn.
        - simpl in Hn.
          destruct (Code_exec_iter self pc ctx) as [[[pc'|]|e] c'] eqn:E; try discriminate.
          injection Hn as <- <-. exists pc, ctx. split; [reflexivity|assumption].
        - change (Code_iterate (S (S n)) self pc ctx)
            with (match Code_exec_iter self pc ctx with
                  | (Ok (Some code_pt'), c') => Code_iterate (S n) self code_pt' c'
                  | _ => None
                  end) in Hn.
          destruct (Code_exec_iter self pc ctx) as [[[pc'|]|e] c'] eqn:E; try discriminate.
          destruct (IH _ _ Hn) as (pc1 & c1 & H1 & H2).
          exists pc1, c1. split; [|assumption]. simpl. rewrite E. assumption. }
      econstructor; [apply IH|]; eassumption.
Qed.

(** A run that has made [n] iterations goes on from where they left it. *)
Lemma Code_exec_from_iterate (self : Code) (n : nat) :
  forall code_pt c code_pt' c' gas,
    Code_iterate n self code_pt c = Some (code_pt', c') ->
    Code_exec_from (n + gas) self code_pt c = Code_exec_from gas self code_pt' c'.
Proof.
  induction n as [|n IH]; intros code_pt c code_pt' c' gas Hn.
  - injection Hn as <- <-. reflexivity.
  - simpl in *.
    destruct (Code_exec_iter self code_pt c) as [[[pc1|]|e] c1]; try discriminate.
    apply IH. assumption.
Qed.

Lemma Code_iterate_fuel (self : Code) (n : nat) :
  forall code_pt c code_pt' c',
    Code_iterate n self code_pt c = Some (code_pt', c') ->
    num_cycles_left c' = num_cycles_left c - Z.of_nat n /\
    (0 <= num_cycles_left c -> Z.of_nat n <= num_cycles_left c).
Proof.
  induction n as [|n IH]; intros code_pt c code_pt' c' Hn.
  - injection Hn as <- <-. lia.
  - simpl in Hn.
    destruct (Code_exec_iter self code_pt c) as [[[pc1|]|e] c1] eqn:E; try discriminate.
    apply Code_exec_iter_inv in E as (Hne & Hdec & _).
    apply IH in Hn as [Hn1 Hn2]. lia.
Qed.

(** With a non-negative budget the loop is over after at most one iteration
    more than the budget. *)
Lemma Code_exec_from_terminates (self : Code) (k : nat) :
  forall code_pt c,
    0 <= num_cycles_left c <= Z.of_nat k ->
    exists r, Code_exec_from (S k) self code_pt c = Some r.
Proof.
  induction k as [|k IH]; intros code_pt c Hc.
  - simpl. rewrite Code_exec_iter_unfold.
    destruct (getitem (tokens self) code_pt) as [token|e]; [|eauto].
    destruct (decide (token = ExitToken)); [eauto|].
    destruct (num_cycles_left c =? 0) eqn:E; [eauto|lia].
  - change (Code_exec_from (S (S k)) self code_pt c)
      with (match Code_exec_iter self code_pt c with
            | (Raise e, context') => Some (Raise e, context')
            | (Ok None, context') => Some (Ok tt, context')
            | (Ok (Some code_pt'), context') => Code_exec_from (S k) self code_pt' context'
            end).
    destruct (Code_exec_iter self code_pt c) as [[[pc1|]|e] c1] eqn:E; eauto.
    apply Code_exec_iter_inv in E as (Hne & Hdec & _).
    apply IH. lia.
Qed.

(** What holds in every state a run passes through. *)
Lemma reachable_inv (self : Code) (inp : option stream) (out : sink) (bs lim : Z) (code_pt : Z) (c : Context) :
  reachable self (Context_init inp out bs lim) code_pt c ->
  0 <= code_pt /\
  cells_ok c /\
  length (buffer c) = Z.to_nat bs /\
  (1 <= bs -> cursor_ok c).
Proof.
  induction 1 as [|pc c pc' c' _ (Hpc & Hcells & Hlen & Hcur) Hstep].
  - unfold cells_ok, cursor_ok. simpl. rewrite length_replicate.
    split; [lia|]. split; [apply Forall_replicate; lia|]. split; lia.
  - apply Code_exec_iter_inv in Hstep as (_ & _ & Hlen' & Hcells' & Hcur' & Hpc').
    split; [auto|]. split; [auto|]. split; [congruence|auto].
Qed.

(** The budget never rises, and a non-negative budget stays non-negative,
    whatever the way the loop ends. *)
Lemma Code_exec_from_fuel (self : Code) (gas : nat) :
  forall code_pt c r c',
    Code_exec_from gas self code_pt c = Some (r, c') ->
    num_cycles_left c' <= num_cycles_left c /\
    (0 <= num_cycles_left c -> 0 <= num_cycles_left c').
Proof.
  induction gas as [|gas IH]; intros code_pt c r c' H; [discriminate|].
  simpl in H. rewrite Code_exec_iter_unfold in H.
  destruct (getitem (tokens self) code_pt) as [token|e]; [|injection H as <- <-; lia].
  destruct (decide (token = ExitToken)); [injection H as <- <-; lia|].
  destruct (num_cycles_left c =? 0) eqn:E; [injection H as <- <-; lia|].
  destruct (Token_exec token (tick c)) as [[pt|e] c1] eqn:Ht;
    apply Token_exec_frame in Ht as (Hn & _); simpl in Hn.
  - apply IH in H. lia.
  - injection H as <- <-. lia.
Qed.

Example parse_main :
  Code_parse (SourceCode_init ["<"; "+"; "."; ">"; "^"; ";"]%byte)
  = (Ok (mkCode [BackwardToken; PlusToken; PrintToken; ForwardToken; GoToToken; ExitToken]),
     {| code := ["<"; "+"; "."; ">"; "^"; ";"]%byte; src_ptr := 7 |}).
Proof. reflexivity. Qed.

Example parse_bad :
  Code_parse (SourceCode_init ["+"; "@"; ";"]%byte)
  = (Raise SyntaxError, {| code := ["+"; "@"; ";"]%byte; src_ptr := 2 |}).
Proof. reflexivity. Qed.

(** The round-trip scenarios of the specification. *)
Example run_print_three :
  éxec 5 ["+"; "+"; "+"; "."; ";"]%byte None bytes_sink 2 100
  = Some (Ok tt, {| buffer := [3; 0]; ptr := 0; input_file := None;
                    output_kind := bytes_sink; output_file := [3];
                    num_cycles_left := 96 |}).
Proof. reflexivity. Qed.

Example run_echo :
  éxec 3 [","; "."; ";"]%byte (Some (str_stream [65])) bytes_sink 2 100
  = Some (Ok tt, {| buffer := [65; 0]; ptr := 0; input_file := Some (str_stream []);
                    output_kind := bytes_sink; output_file := [65]; num_cycles_left := 98 |}).
Proof. reflexivity. Qed.

Example run_syntax_error :
  éxec 3 ["+"; "@"; ";"]%byte None bytes_sink 2 100 = Some (Raise SyntaxError, Context_init None bytes_sink 2 100).
Proof. reflexivity. Qed.

Example run_off_the_end :
  éxec 5 ["+"; "+"; "+"; "."]%byte None bytes_sink 2 100
  = Some (Raise IndexError, {| buffer := [3; 0]; ptr := 0; input_file := None;

                               output_kind := bytes_sink; output_file := [3]; num_cycles_left := 96 |}).
Proof. reflexivity. Qed.

(** A sink that does not take the byte makes the [PrintToken] raise. *)
Example run_ascii_sink :
  éxec 3 ["-"; "."; ";"]%byte None (text_sink (fun v => v <? 128)) 1 100
  = Some (Raise UnicodeEncodeError,
          {| buffer := [255]; ptr := 0; input_file := None;
             output_kind := text_sink (fun v => v <? 128); output_file := [];
             num_cycles_left := 98 |}).
Proof. reflexivity. Qed.

Example run_str_only_sink :
  éxec 3 ["."; ";"]%byte None str_only_sink 1 100
  = Some (Raise TypeError,
          {| buffer := [0]; ptr := 0; input_file := None;
             output_kind := str_only_sink; output_file := [];
             num_cycles_left := 99 |}).
Proof. reflexivity. Qed.

(** ** The claims *)

(** C4: whenever the token fetched at the current address is [ExitToken],
    the loop of [Code.exec] ends successfully without dispatching it: the
    context the run ends in is the very context the iteration started from,
    so no budget is consumed, nothing is written, and tape, cursor and
    budget are as they were.  This holds for every budget, zero included. *)
Theorem C4_exit_token_ends_loop (self : Code) (code_pt : Z) (c : Context) :
  getitem (tokens self) code_pt = Ok ExitToken ->
  Code_exec_iter self code_pt c = (Ok None, c) /\
  forall gas, Code_exec_from (S gas) self code_pt c = Some (Ok tt, c).
Proof.
  intros Hfetch.
  assert (Hiter : Code_exec_iter self code_pt c = (Ok None, c)).
  { rewrite Code_exec_iter_unfold, Hfetch. reflexivity. }
  split; [assumption|]. intros gas. simpl. rewrite Hiter. reflexivity.
Qed.

Lemma C4_exit_token_ends_loop_witness :
  Code_exec_iter (mkCode [PlusToken; ExitToken]) 1
    {| buffer := [1]; ptr := 0; input_file := None; output_kind := bytes_sink; output_file := [];
       num_cycles_left := 0 |}
  = (Ok None,
     {| buffer := [1]; ptr := 0; input_file := None; output_kind := bytes_sink; output_file := [];
        num_cycles_left := 0 |}).
Proof.
  apply (C4_exit_token_ends_loop (mkCode [PlusToken; ExitToken]) 1). reflexivity.
Defined.

(** C1: when an iteration, by a jump or by the advance past the last
    instruction, produces an address outside [0, len(tokens)), the fetch
    at the head of the next iteration raises [IndexError], whatever the
    budget, and the run ends with that exception in the context the
    instruction left; [IndexError] is neither the [TimeoutError] of the
    budget nor the [SyntaxError] of the parser. *)
Theorem C1_out_of_range_address_raises_IndexError
    (self : Code) (inp : option stream) (out : sink) (bs lim : Z)
    (code_pt : Z) (c : Context) (code_pt' : Z) (c' : Context) :
  reachable self (Context_init inp out bs lim) code_pt c ->
  Code_exec_iter self code_pt c = (Ok (Some code_pt'), c') ->
  ~ (0 <= code_pt' < Z.of_nat (length (tokens self))) ->
  Code_exec_iter self code_pt' c' = (Raise IndexError, c') /\
  (exists n, forall gas,
      Code_exec (n + S gas) self (Context_init inp out bs lim) = Some (Raise IndexError, c')) /\
  IndexError <> TimeoutError /\ IndexError <> SyntaxError.
Proof.
  intros Hreach Hstep Hout.
  assert (Hreach' : reachable self (Context_init inp out bs lim) code_pt' c')
    by (econstructor; eassumption).
  destruct (reachable_inv _ _ _ _ _ _ _ Hreach') as (Hpc & _).
  assert (Hiter : Code_exec_iter self code_pt' c' = (Raise IndexError, c')).
  { rewrite Code_exec_iter_unfold, getitem_beyond by lia. reflexivity. }
  split; [assumption|]. split; [|split; discriminate].
  apply reachable_iterate in Hreach' as [n Hn]. exists n. intros gas.
  unfold Code_exec. rewrite (Code_exec_from_iterate _ _ _ _ _ _ _ Hn).
  simpl. rewrite Hiter. reflexivity.
Qed.

Lemma C1_out_of_range_address_raises_IndexError_witness :
  Code_exec_iter (mkCode [PlusToken; PrintToken]) 2
    {| buffer := [1]; ptr := 0; input_file := None; output_kind := bytes_sink; output_file := [1];
       num_cycles_left := 0 |}
  = (Raise IndexError,
     {| buffer := [1]; ptr := 0; input_file := None; output_kind := bytes_sink; output_file := [1];
        num_cycles_left := 0 |}).
Proof.
  refine (proj1 (C1_out_of_range_address_raises_IndexError
                   (mkCode [PlusToken; PrintToken]) None bytes_sink 1 2 1
                   {| buffer := [1]; ptr := 0; input_file := None;
                      output_kind := bytes_sink; output_file := [];
                      num_cycles_left := 1 |}
                   2 _ _ _ _)).
  - eapply reachable_next; [apply reachable_start|reflexivity].
  - reflexivity.
  - simpl. lia.
Defined.

(** C10: in every state a run passes through the instruction address is
    non-negative, so the token tuple is never indexed from its end; an
    address produced by a [GoToToken] is a cell value, hence at most 255;
    and an address above 255 is only ever produced by the advance of an
    instruction other than [GoToToken]. *)
Theorem C10_addresses_nonnegative_jumps_below_256
    (self : Code) (inp : option stream) (out : sink) (bs lim : Z) (code_pt : Z) (c : Context) :
  reachable self (Context_init inp out bs lim) code_pt c ->
  0 <= code_pt /\
  forall code_pt' c',
    Code_exec_iter self code_pt c = (Ok (Some code_pt'), c') ->
    0 <= code_pt' /\
    (getitem (tokens self) code_pt = Ok GoToToken -> code_pt' <= 255) /\
    (255 < code_pt' ->
     code_pt' = code_pt + 1 /\ getitem (tokens self) code_pt <> Ok GoToToken).
Proof.
  intros Hreach.
  destruct (reachable_inv _ _ _ _ _ _ _ Hreach) as (Hpc & Hcells & _ & _).
  split; [assumption|]. intros code_pt' c' Hstep.
  split; [apply Code_exec_iter_inv in Hstep; tauto|].
  apply Code_exec_iter_next in Hstep as (token & pt & Hfetch & _ & _ & Hexec & ->).
  apply Token_exec_signal in Hexec as [(-> & Hcell & ->)|(Hng & _ & ->)].
  - assert (Hpt : 0 <= pt < 256).
    { unfold getitem in Hcell. simpl in Hcell.
      destruct (index _ _) as [i|]; [|discriminate].
      destruct (buffer c !! i) as [v|] eqn:Hv; [|discriminate].
      injection Hcell as <-. exact (Forall_lookup_1 _ _ _ _ Hcells Hv). }
    destruct (pt <? 0) eqn:E; [lia|]. split; [lia|]. intros Hbig. lia.
  - simpl. split.
    + intros Hgoto. congruence.
    + intros _. split; [reflexivity|]. congruence.
Qed.

Lemma C10_addresses_nonnegative_jumps_below_256_witness :
  0 <= 0 /\
  forall code_pt' c',
    Code_exec_iter (mkCode [GoToToken; ExitToken]) 0 (Context_init None bytes_sink 1 5)
    = (Ok (Some code_pt'), c') ->
    0 <= code_pt' /\
    (getitem [GoToToken; ExitToken] 0 = Ok GoToToken -> code_pt' <= 255) /\
    (255 < code_pt' ->
     code_pt' = 0 + 1 /\ getitem [GoToToken; ExitToken] 0 <> Ok GoToToken).
Proof.
  apply (C10_addresses_nonnegative_jumps_below_256
           (mkCode [GoToToken; ExitToken]) None bytes_sink 1 5 0 (Context_init None bytes_sink 1 5)).
  apply reachable_start.
Defined.

(** C2, as the code has it: every iteration first fetches the token at the
    current address.  With the budget at zero, a fetch out of range raises
    its [IndexError], an [ExitToken] ends the run successfully, and any
    other token makes [Context.exec] raise [TimeoutError] before the token
    is dispatched: the context is left exactly as it was. *)
Theorem C2_budget_checked_after_fetch (self : Code) (code_pt : Z) (c : Context) :
  num_cycles_left c = 0 ->
  (forall token,
      getitem (tokens self) code_pt = Ok token -> token <> ExitToken ->
      Code_exec_iter self code_pt c = (Raise TimeoutError, c) /\
      forall gas, Code_exec_from (S gas) self code_pt c = Some (Raise TimeoutError, c)) /\
  (getitem (tokens self) code_pt = Ok ExitToken ->
   Code_exec_iter self code_pt c = (Ok None, c) /\
   forall gas, Code_exec_from (S gas) self code_pt c = Some (Ok tt, c)) /\
  (forall e,
      getitem (tokens self) code_pt = Raise e ->
      Code_exec_iter self code_pt c = (Raise e, c) /\
      forall gas, Code_exec_from (S gas) self code_pt c = Some (Raise e, c)).
Proof.
  intros Hzero. split; [|split].
  - intros token Hfetch Hne.
    assert (Hiter : Code_exec_iter self code_pt c = (Raise TimeoutError, c)).
    { rewrite Code_exec_iter_unfold, Hfetch, Hzero.
      destruct (decide (token = ExitToken)); [contradiction|reflexivity]. }
    split; [exact Hiter|]. intros gas. simpl. rewrite Hiter. reflexivity.
  - intros Hfetch.
    assert (Hiter : Code_exec_iter self code_pt c = (Ok None, c)).
    { rewrite Code_exec_iter_unfold, Hfetch. reflexivity. }
    split; [exact Hiter|]. intros gas. simpl. rewrite Hiter. reflexivity.
  - intros e Hfetch.
    assert (Hiter : Code_exec_iter self code_pt c = (Raise e, c)).
    { rewrite Code_exec_iter_unfold, Hfetch. reflexivity. }
    split; [exact Hiter|]. intros gas. simpl. rewrite Hiter. reflexivity.
Qed.

Lemma C2_budget_checked_after_fetch_witness :
  Code_exec_iter (mkCode [PlusToken; ExitToken]) 0 (Context_init None bytes_sink 1 0)
  = (Raise TimeoutError, Context_init None bytes_sink 1 0).
Proof.
  refine (proj1 (proj1 (C2_budget_checked_after_fetch
                          (mkCode [PlusToken; ExitToken]) 0 (Context_init None bytes_sink 1 0) _)
                   PlusToken _ _)).
  - reflexivity.
  - reflexivity.
  - discriminate.
Defined.

(** C2 fails as stated: the program [;] run with a budget of zero reaches
    its [ExitToken] with nothing left and ends successfully; no bound on
    the iterations makes it end in [TimeoutError]. *)
Lemma C2_counterexample :
  num_cycles_left (Context_init None bytes_sink 1 0) = 0 /\
  éxec 1 [";"%byte] None bytes_sink 1 0 = Some (Ok tt, Context_init None bytes_sink 1 0) /\
  forall gas c', éxec gas [";"%byte] None bytes_sink 1 0 <> Some (Raise TimeoutError, c').
Proof.
  split; [reflexivity|]. split; [reflexivity|].
  intros [|gas] c'; [discriminate|].
  change (éxec (S gas) [";"%byte] None bytes_sink 1 0) with (Some (Ok tt, Context_init None bytes_sink 1 0)).
  discriminate.
Qed.

(** C3, as the code has it: for a budget [F >= 0], every dispatch lowers
    the counter by exactly one and leaves it non-negative; a token other
    than [ExitToken] met with the counter at zero raises [TimeoutError] and
    is not dispatched; after [n] completed iterations the counter is
    [F - n], so [n <= F]; whatever way the run ends the counter is within
    [0, F], so at most [F] instructions were dispatched; and the run is
    over within [F + 1] iterations. *)
Theorem C3_nonnegative_budget_bounds_run
    (self : Code) (inp : option stream) (out : sink) (bs F : Z) :
  0 <= F ->
  (forall code_pt c token r c',
      reachable self (Context_init inp out bs F) code_pt c ->
      getitem (tokens self) code_pt = Ok token -> token <> ExitToken ->
      Code_exec_iter self code_pt c = (r, c') ->
      (num_cycles_left c = 0 -> r = Raise TimeoutError /\ c' = c) /\
      (num_cycles_left c <> 0 ->
       num_cycles_left c' = num_cycles_left c - 1 /\ 0 <= num_cycles_left c')) /\
  (forall n code_pt c,
      Code_iterate n self 0 (Context_init inp out bs F) = Some (code_pt, c) ->
      Z.of_nat n <= F /\ num_cycles_left c = F - Z.of_nat n) /\
  (forall gas r c',
      Code_exec gas self (Context_init inp out bs F) = Some (r, c') ->
      0 <= num_cycles_left c' <= F) /\
  (exists r, Code_exec (S (Z.to_nat F)) self (Context_init inp out bs F) = Some r).
Proof.
  intros HF. split; [|split; [|split]].
  - intros code_pt c token r c' Hreach Hfetch Hne Hiter.
    apply reachable_iterate in Hreach as [n Hn].
    apply Code_iterate_fuel in Hn as [Hn1 Hn2]. simpl in Hn1, Hn2.
    rewrite Code_exec_iter_unfold, Hfetch in Hiter.
    destruct (decide (token = ExitToken)); [contradiction|].
    destruct (num_cycles_left c =? 0) eqn:E.
    + injection Hiter as <- <-. split; [auto|lia].
    + split; [lia|]. intros _.
      destruct (Token_exec token (tick c)) as [[pt|e] c1] eqn:Ht;
        apply Token_exec_frame in Ht as (Hfuel & _); simpl in Hfuel;
        injection Hiter as <- <-; lia.
  - intros n code_pt c Hn.
    apply Code_iterate_fuel in Hn as [Hn1 Hn2]. simpl in Hn1, Hn2. lia.
  - intros gas r c' Hrun. apply Code_exec_from_fuel in Hrun. simpl in Hrun. lia.
  - apply Code_exec_from_terminates. simpl. lia.
Qed.

Lemma C3_nonnegative_budget_bounds_run_witness :
  exists r, Code_exec (S (Z.to_nat 3)) (mkCode [GoToToken; ExitToken]) (Context_init None bytes_sink 1 3)
            = Some r.
Proof.
  refine (proj2 (proj2 (proj2 (C3_nonnegative_budget_bounds_run
                                 (mkCode [GoToToken; ExitToken]) None bytes_sink 1 3 _)))).
  lia.
Defined.

(** C3 fails as stated for a negative budget: with [F = -1] the counter is
    never zero, so the program [+;] dispatches one instruction, more than
    [max(F, 0) = 0], and ends successfully with the counter at [-2]. *)
Lemma C3_counterexample :
  Code_iterate 1 (mkCode [PlusToken; ExitToken]) 0 (Context_init None bytes_sink 1 (-1))
  = Some (1, {| buffer := [1]; ptr := 0; input_file := None;
                output_kind := bytes_sink; output_file := [];
                num_cycles_left := -2 |}) /\
  ~ (Z.of_nat 1 <= Z.max (-1) 0) /\
  éxec 2 ["+"; ";"]%byte None bytes_sink 1 (-1)
  = Some (Ok tt, {| buffer := [1]; ptr := 0; input_file := None;
                    output_kind := bytes_sink; output_file := [];
                    num_cycles_left := -2 |}).
Proof. split; [reflexivity|]. split; [lia|reflexivity]. Qed.

(** On a tape with the cursor on a cell, the four instructions that touch
    only the tape always return, and [PrintToken] returns when the sink
    takes the value of the current cell. *)
Lemma Token_exec_returns (token : Token) (c : Context) :
  cursor_ok c -> cells_ok c ->
  token <> GoToToken -> token <> ExitToken -> token <> ReadToken ->
  (token = PrintToken ->
   forall v, buffer c !! Z.to_nat (ptr c) = Some v -> sink_takes (output_kind c) v) ->
  exists c', Token_exec token c = (Ok (-1), c').
Proof.
  intros Hcur Hcells Hg He Hr Hsink.
  destruct (getitem_inrange (buffer c) (ptr c) Hcur) as (v & Hv & Hget).
  pose proof (Forall_lookup_1 _ _ _ _ Hcells Hv) as Hrange. simpl in Hrange.
  assert (Hlen : (Z.of_nat (length (buffer c)) =? 0) = false)
    by (unfold cursor_ok in Hcur; lia).
  destruct token; try contradiction;
    unfold Token_exec, bind, ret, lift, Context_current_value, Context_set_current_value,
      Context_pointer, Context_set_pointer, Context_write, mod_;
    rewrite ?Hget, ?Hlen, ?setitem_inrange by exact Hcur; eauto.
  specialize (Hsink eq_refl v Hv).
  unfold bytes. simpl.
  destruct ((0 <=? v) && (v <? 256)) eqn:E; [|lia].
  destruct (output_kind c) as [encodes| |]; simpl in Hsink |- *.
  - rewrite Hsink. simpl. eauto.
  - eauto.
  - contradiction.
Qed.

(** [ReadToken] returns as soon as the read itself does. *)
Lemma ReadToken_exec_returns (c : Context) (b : list Z) (c1 : Context) :
  cursor_ok c ->
  Context_read 1 c = (Ok b, c1) ->
  exists c', Token_exec ReadToken c = (Ok (-1), c').
Proof.
  intros Hcur Hread.
  assert (Hsame : buffer c1 = buffer c /\ ptr c1 = ptr c /\ (length b <= 1)%nat).
  { unfold Context_read, stream_read in Hread. simpl in Hread.
    destruct (input_file c) as [[data|data|data]|];
      try (destruct data as [|x data]); simpl in Hread;
      try (unfold bytes in Hread; simpl in Hread; destruct (_ && _));
      try discriminate; injection Hread as <- <-; simpl; auto. }
  destruct Hsame as (Hb & Hp & Hlen).
  assert (Hcur1 : 0 <= ptr c1 < Z.of_nat (length (buffer c1)))
    by (rewrite Hb, Hp; exact Hcur).
  unfold Token_exec, bind, lift, ret, Context_set_current_value. rewrite Hread.
  destruct b as [|x [|y b]]; simpl in *; try lia;
    rewrite setitem_inrange by exact Hcur1; eauto.
Qed.

(** C5, as the code has it: in every state a run passes through, with
    budget left for one dispatch, an instruction that returns transfers
    control as follows: [GoToToken] makes the next address the value of
    the current cell, read at the moment of dispatch, and changes nothing
    but the budget; each of the six other instructions that can be
    dispatched makes the next address the current one plus 1.  On a tape
    of at least one cell [GoToToken], [PlusToken], [MinusToken],
    [ForwardToken] and [BackwardToken] always return, [PrintToken] returns
    when the sink takes the value of the current cell, and [ReadToken]
    returns whenever the read from the input does. *)
Theorem C5_goto_jumps_to_cell_others_advance
    (self : Code) (inp : option stream) (out : sink) (bs lim : Z)
    (code_pt : Z) (c : Context) (token : Token) :
  reachable self (Context_init inp out bs lim) code_pt c ->
  getitem (tokens self) code_pt = Ok token ->
  num_cycles_left c <> 0 ->
  (token = GoToToken ->
   (forall code_pt' c',
       Code_exec_iter self code_pt c = (Ok (Some code_pt'), c') ->
       getitem (buffer c) (ptr c) = Ok code_pt' /\ c' = tick c) /\
   (1 <= bs ->
    exists v, buffer c !! Z.to_nat (ptr c) = Some v /\
              Code_exec_iter self code_pt c = (Ok (Some v), tick c))) /\
  (token <> GoToToken -> token <> ExitToken ->
   (forall code_pt' c',
       Code_exec_iter self code_pt c = (Ok (Some code_pt'), c') ->
       code_pt' = code_pt + 1) /\
   (1 <= bs -> token <> ReadToken -> token <> PrintToken ->
    exists c', Code_exec_iter self code_pt c = (Ok (Some (code_pt + 1)), c')) /\
   (1 <= bs -> token = PrintToken ->
    forall v, buffer c !! Z.to_nat (ptr c) = Some v -> sink_takes (output_kind c) v ->
    exists c', Code_exec_iter self code_pt c = (Ok (Some (code_pt + 1)), c')) /\
   (1 <= bs -> token = ReadToken ->
    forall b c1, Context_read 1 (tick c) = (Ok b, c1) ->
    exists c', Code_exec_iter self code_pt c = (Ok (Some (code_pt + 1)), c'))).
Proof.
  intros Hreach Hfetch Hfuel.
  destruct (reachable_inv _ _ _ _ _ _ _ Hreach) as (Hpc & Hcells & Hlen & Hcur).
  assert (Hnz : (num_cycles_left c =? 0) = false) by lia.
  split.
  - intros ->. split.
    + intros code_pt' c' Hstep.
      apply Code_exec_iter_next in Hstep as (token & pt & Hfetch' & _ & _ & Hexec & ->).
      assert (token = GoToToken) as -> by congruence.
      injection Hexec as Hcell <-. simpl in Hcell.
      assert (0 <= pt < 256) as Hpt.
      { unfold getitem in Hcell.
        destruct (index _ _) as [i|]; [|discriminate].
        destruct (buffer c !! i) as [v|] eqn:Hv; [|discriminate].
        injection Hcell as <-. exact (Forall_lookup_1 _ _ _ _ Hcells Hv). }
      destruct (pt <? 0) eqn:E; [lia|]. split; [assumption|reflexivity].
    + intros Hbs. specialize (Hcur Hbs).
      destruct (getitem_inrange (buffer c) (ptr c) Hcur) as (v & Hv & Hget).
      pose proof (Forall_lookup_1 _ _ _ _ Hcells Hv) as Hrange. simpl in Hrange.
      exists v. split; [assumption|].
      rewrite Code_exec_iter_unfold, Hfetch, Hnz. simpl.
      unfold Context_current_value. simpl. rewrite Hget.
      destruct (v <? 0) eqn:E; [lia|reflexivity].
  - intros Hng Hne. split; [|split; [|split]].
    + intros code_pt' c' Hstep.
      apply Code_exec_iter_next in Hstep as (token' & pt & Hfetch' & _ & _ & Hexec & ->).
      assert (token' = token) as -> by congruence.
      apply Token_exec_signal in Hexec as [(-> & _)|(_ & _ & ->)];
        [contradiction|reflexivity].
    + intros Hbs Hnr Hnp. specialize (Hcur Hbs).
      destruct (Token_exec_returns token (tick c)) as [c' Hexec]; auto.
      { intros ->. contradiction. }
      exists c'. rewrite Code_exec_iter_unfold, Hfetch, Hnz, Hexec.
      destruct (decide (token = ExitToken)); [contradiction|reflexivity].
    + intros Hbs -> v Hv Hsink. specialize (Hcur Hbs).
      destruct (Token_exec_returns PrintToken (tick c)) as [c' Hexec]; auto.
      { intros _ v' Hv'. simpl in Hv' |- *.
        assert (v' = v) as -> by congruence. exact Hsink. }
      exists c'. rewrite Code_exec_iter_unfold, Hfetch, Hnz, Hexec. reflexivity.
    + intros Hbs -> b c1 Hread. specialize (Hcur Hbs).
      destruct (ReadToken_exec_returns (tick c) b c1) as [c' Hexec]; auto.
      exists c'. rewrite Code_exec_iter_unfold, Hfetch, Hnz, Hexec. reflexivity.
Qed.

Lemma C5_goto_jumps_to_cell_others_advance_witness :
  exists v, [3; 0] !! Z.to_nat 0 = Some v /\
            Code_exec_iter (mkCode [PlusToken; PlusToken; PlusToken; GoToToken; ExitToken]) 3
              {| buffer := [3; 0]; ptr := 0; input_file := None;
                 output_kind := bytes_sink; output_file := [];
                 num_cycles_left := 7 |}
            = (Ok (Some v),
               tick {| buffer := [3; 0]; ptr := 0; input_file := None;
                       output_kind := bytes_sink; output_file := [];
                       num_cycles_left := 7 |}).
Proof.
  refine (proj2 (proj1 (C5_goto_jumps_to_cell_others_advance
                          (mkCode [PlusToken; PlusToken; PlusToken; GoToToken; ExitToken])
                          None bytes_sink 2 10 3
                          {| buffer := [3; 0]; ptr := 0; input_file := None;
                             output_kind := bytes_sink; output_file := []; num_cycles_left := 7 |}
                          GoToToken _ _ _) _) _).
  - eapply reachable_next;
      [eapply reachable_next;
       [eapply reachable_next; [apply reachable_start|cbv; reflexivity]
       |cbv; reflexivity]
      |cbv; reflexivity].
  - reflexivity.
  - simpl. lia.
  - reflexivity.
  - lia.
Defined.

(** C5 fails as stated: a dispatch need not transfer control at all.  In
    the initial state of a run on a tape of one cell, a [ReadToken] whose
    input is a byte stream that is not a [typing.BinaryIO] raises
    [TypeError], and in the initial state of a run on a tape without
    cells a [GoToToken] raises [IndexError]: neither iteration yields a
    next address. *)
Lemma C5_counterexample :
  (reachable (mkCode [ReadToken; ExitToken])
     (Context_init (Some (bytes_stream [65; 66])) bytes_sink 1 5)
     0 (Context_init (Some (bytes_stream [65; 66])) bytes_sink 1 5) /\
   getitem (tokens (mkCode [ReadToken; ExitToken])) 0 = Ok ReadToken /\
   num_cycles_left (Context_init (Some (bytes_stream [65; 66])) bytes_sink 1 5) <> 0 /\
   Code_exec_iter (mkCode [ReadToken; ExitToken]) 0
     (Context_init (Some (bytes_stream [65; 66])) bytes_sink 1 5)
   = (Raise TypeError,
      set_input_file (Some (bytes_stream [66]))
        (tick (Context_init (Some (bytes_stream [65; 66])) bytes_sink 1 5))) /\
   forall c',
     Code_exec_iter (mkCode [ReadToken; ExitToken]) 0
       (Context_init (Some (bytes_stream [65; 66])) bytes_sink 1 5)
     <> (Ok (Some (0 + 1)), c')) /\
  (reachable (mkCode [GoToToken; ExitToken]) (Context_init None bytes_sink 0 5)
     0 (Context_init None bytes_sink 0 5) /\
   getitem (tokens (mkCode [GoToToken; ExitToken])) 0 = Ok GoToToken /\
   num_cycles_left (Context_init None bytes_sink 0 5) <> 0 /\
   Code_exec_iter (mkCode [GoToToken; ExitToken]) 0 (Context_init None bytes_sink 0 5)
   = (Raise IndexError, tick (Context_init None bytes_sink 0 5)) /\
   forall code_pt' c',
     Code_exec_iter (mkCode [GoToToken; ExitToken]) 0 (Context_init None bytes_sink 0 5)
     <> (Ok (Some code_pt'), c')).
Proof.
  split.
  - split; [apply reachable_start|]. split; [reflexivity|]. split; [simpl; lia|].
    assert (H : Code_exec_iter (mkCode [ReadToken; ExitToken]) 0
                  (Context_init (Some (bytes_stream [65; 66])) bytes_sink 1 5)
                = (Raise TypeError,
                   set_input_file (Some (bytes_stream [66]))
                     (tick (Context_init (Some (bytes_stream [65; 66])) bytes_sink 1 5))))
      by reflexivity.
    split; [exact H|]. intros c'. rewrite H. discriminate.
  - split; [apply reachable_start|]. split; [reflexivity|]. split; [simpl; lia|].
    assert (H : Code_exec_iter (mkCode [GoToToken; ExitToken]) 0
                  (Context_init None bytes_sink 0 5)
                = (Raise IndexError, tick (Context_init None bytes_sink 0 5)))
      by reflexivity.
    split; [exact H|]. intros code_pt' c'. rewrite H. discriminate.
Qed.

Lemma plus_minus_exec (token : Token) (c : Context) (v : Z) :
  plus_or_minus token -> cursor_ok c ->
  buffer c !! Z.to_nat (ptr c) = Some v ->
  Token_exec token c
  = (Ok (-1), set_buffer (<[Z.to_nat (ptr c) := (v + delta token) mod 256]> (buffer c)) c).
Proof.
  intros Htok Hcur Hv.
  pose proof (getitem_lookup _ _ _ (proj1 Hcur) Hv) as Hget.
  destruct Htok as [-> | ->];
    unfold Token_exec, bind, ret, Context_current_value, Context_set_current_value;
    rewrite Hget, setitem_inrange by exact Hcur; rewrite land_255; reflexivity.
Qed.

(** A stretch of [PlusToken]s and [MinusToken]s, run by the loop from its
    first instruction, ends on the instruction after it with the current
    cell moved by the net delta modulo 256 and the cursor in place. *)
Lemma plus_minus_run (ops : list Token) :
  forall (pre rest : list Token) (c : Context) (v0 : Z),
    Forall plus_or_minus ops ->
    cursor_ok c ->
    buffer c !! Z.to_nat (ptr c) = Some v0 ->
    0 <= v0 < 256 ->
    Z.of_nat (length ops) <= num_cycles_left c ->
    exists c',
      Code_iterate (length ops) (mkCode (pre ++ ops ++ rest)) (Z.of_nat (length pre)) c
      = Some (Z.of_nat (length pre) + Z.of_nat (length ops), c') /\
      ptr c' = ptr c /\
      length (buffer c') = length (buffer c) /\
      num_cycles_left c' = num_cycles_left c - Z.of_nat (length ops) /\
      buffer c' !! Z.to_nat (ptr c') = Some ((v0 + net_delta ops) mod 256).
Proof.
  induction ops as [|op ops IH]; intros pre rest c v0 Hops Hcur Hv Hrange Hfuel.
  - exists c. simpl. rewrite !Z.add_0_r, Z.mod_small by lia.
    split; [reflexivity|]. split; [reflexivity|]. split; [reflexivity|].
    split; [lia|assumption].
  - apply Forall_cons in Hops as [Hop Hops]. simpl length in *.
    set (self := mkCode (pre ++ (op :: ops) ++ rest)).
    set (c1 := set_buffer (<[Z.to_nat (ptr c) := (v0 + delta op) mod 256]> (buffer c))
                 (tick c)).
    assert (Hstep : Code_exec_iter self (Z.of_nat (length pre)) c
                    = (Ok (Some (Z.of_nat (length pre) + 1)), c1)).
    { rewrite Code_exec_iter_unfold.
      assert (Hfetch : getitem (tokens self) (Z.of_nat (length pre)) = Ok op).
      { apply getitem_lookup; [lia|]. rewrite Nat2Z.id. simpl.
        apply list_lookup_middle. reflexivity. }
      rewrite Hfetch.
      destruct (decide (op = ExitToken)) as [->|_]; [destruct Hop; discriminate|].
      destruct (num_cycles_left c =? 0) eqn:E; [lia|].
      rewrite (plus_minus_exec op (tick c) v0 Hop Hcur Hv). reflexivity. }
    destruct (IH (pre ++ [op]) rest c1 ((v0 + delta op) mod 256)) as (c' & Hrun & Hp & Hl & Hn & Hc).
    + assumption.
    + unfold cursor_ok, c1. simpl. rewrite length_insert. exact Hcur.
    + unfold c1. simpl. apply list_lookup_insert_eq. unfold cursor_ok in Hcur. lia.
    + apply Z.mod_pos_bound. lia.
    + unfold c1. simpl. lia.
    + exists c'.
      rewrite <- app_assoc in Hrun. simpl app in Hrun.
      rewrite length_app in Hrun. simpl length in Hrun.
      replace (Z.of_nat (length pre + 1)) with (Z.of_nat (length pre) + 1) in Hrun by lia.
      change (Code_iterate (S (length ops)) self (Z.of_nat (length pre)) c)
        with (match Code_exec_iter self (Z.of_nat (length pre)) c with
              | (Ok (Some code_pt'), c') => Code_iterate (length ops) self code_pt' c'
              | _ => None
              end).
      rewrite Hstep.
      change (mkCode (pre ++ op :: ops ++ rest)) with self in Hrun. rewrite Hrun.
      unfold c1 in Hp, Hl, Hn. simpl in Hp, Hl, Hn. rewrite length_insert in Hl.
      split; [f_equal; f_equal; lia|]. split; [assumption|]. split; [assumption|].
      split; [lia|].
      rewrite Hc. f_equal. simpl net_delta.
      rewrite Z.add_mod_idemp_l by lia. f_equal. lia.
Qed.

(** C6: in every state a run passes through every cell of the tape holds a
    value in [0, 255]; and a stretch of [PlusToken]s and [MinusToken]s run
    from such a state leaves in the current cell its initial value plus
    the net delta of the stretch, modulo 256: a value in [0, 255] again,
    reached without any error. *)
Theorem C6_cells_are_bytes_and_wrap
    (self : Code) (inp : option stream) (out : sink) (bs lim : Z) (code_pt : Z) (c : Context) :
  reachable self (Context_init inp out bs lim) code_pt c ->
  Forall (fun v => 0 <= v < 256) (buffer c) /\
  forall (pre ops rest : list Token) (v0 : Z),
    tokens self = pre ++ ops ++ rest ->
    code_pt = Z.of_nat (length pre) ->
    Forall plus_or_minus ops ->
    buffer c !! Z.to_nat (ptr c) = Some v0 ->
    Z.of_nat (length ops) <= num_cycles_left c ->
    exists c',
      Code_iterate (length ops) self code_pt c
      = Some (code_pt + Z.of_nat (length ops), c') /\
      ptr c' = ptr c /\
      buffer c' !! Z.to_nat (ptr c') = Some ((v0 + net_delta ops) mod 256) /\
      0 <= (v0 + net_delta ops) mod 256 < 256.
Proof.
  intros Hreach.
  destruct (reachable_inv _ _ _ _ _ _ _ Hreach) as (Hpc & Hcells & Hlen & Hcur).
  split; [exact Hcells|].
  intros pre ops rest v0 Htok -> Hops Hv Hfuel.
  assert (Hcur' : cursor_ok c).
  { apply Hcur. apply lookup_lt_Some in Hv. lia. }
  pose proof (Forall_lookup_1 _ _ _ _ Hcells Hv) as Hrange. simpl in Hrange.
  destruct (plus_minus_run ops pre rest c v0 Hops Hcur' Hv Hrange Hfuel)
    as (c' & Hrun & Hp & _ & _ & Hc).
  exists c'. destruct self as [toks]. simpl in Htok. subst toks.
  split; [exact Hrun|]. split; [exact Hp|]. split; [exact Hc|].
  apply Z.mod_pos_bound. lia.
Qed.

Lemma C6_cells_are_bytes_and_wrap_witness :
  exists c',
    Code_iterate (length [MinusToken; MinusToken; PlusToken])
      (mkCode [MinusToken; MinusToken; PlusToken; ExitToken]) 0 (Context_init None bytes_sink 2 9)
    = Some (0 + Z.of_nat (length [MinusToken; MinusToken; PlusToken]), c') /\
    ptr c' = ptr (Context_init None bytes_sink 2 9) /\
    buffer c' !! Z.to_nat (ptr c')
    = Some ((0 + net_delta [MinusToken; MinusToken; PlusToken]) mod 256) /\
    0 <= (0 + net_delta [MinusToken; MinusToken; PlusToken]) mod 256 < 256.
Proof.
  refine (proj2 (C6_cells_are_bytes_and_wrap
                   (mkCode [MinusToken; MinusToken; PlusToken; ExitToken]) None bytes_sink 2 9 0
                   (Context_init None bytes_sink 2 9) _)
            [] [MinusToken; MinusToken; PlusToken] [ExitToken] 0 _ _ _ _ _).
  - apply reachable_start.
  - reflexivity.
  - reflexivity.
  - repeat (apply List.Forall_cons; [first [left; reflexivity | right; reflexivity]|]).
    apply List.Forall_nil.
  - reflexivity.
  - simpl. lia.
Defined.

Example wrap_below_zero :
  Code_iterate 3 (mkCode [MinusToken; MinusToken; PlusToken; ExitToken]) 0
    (Context_init None bytes_sink 2 9)
  = Some (3, {| buffer := [255; 0]; ptr := 0; input_file := None;
                output_kind := bytes_sink; output_file := [];
                num_cycles_left := 6 |}).
Proof. reflexivity. Qed.

(** C7, as the code has it: on a tape of at least one cell the cursor is
    within [0, capacity) in every state a run passes through; a dispatched
    [ForwardToken] moves it to [(ptr + 1) mod capacity], hence from
    [capacity - 1] to 0, a dispatched [BackwardToken] to
    [(ptr - 1) mod capacity], hence from 0 to [capacity - 1]; neither
    raises. *)
Theorem C7_cursor_wraps_on_nonempty_tape
    (self : Code) (inp : option stream) (out : sink) (bs lim : Z) (code_pt : Z) (c : Context) :
  1 <= bs ->
  reachable self (Context_init inp out bs lim) code_pt c ->
  Z.of_nat (length (buffer c)) = bs /\
  0 <= ptr c < bs /\
  (num_cycles_left c <> 0 ->
   (getitem (tokens self) code_pt = Ok ForwardToken ->
    Code_exec_iter self code_pt c
    = (Ok (Some (code_pt + 1)), set_ptr ((ptr c + 1) mod bs) (tick c)) /\
    0 <= (ptr c + 1) mod bs < bs /\
    (ptr c = bs - 1 -> (ptr c + 1) mod bs = 0)) /\
   (getitem (tokens self) code_pt = Ok BackwardToken ->
    Code_exec_iter self code_pt c
    = (Ok (Some (code_pt + 1)), set_ptr ((ptr c - 1) mod bs) (tick c)) /\
    0 <= (ptr c - 1) mod bs < bs /\
    (ptr c = 0 -> (ptr c - 1) mod bs = bs - 1))).
Proof.
  intros Hbs Hreach.
  destruct (reachable_inv _ _ _ _ _ _ _ Hreach) as (Hpc & Hcells & Hlen & Hcur).
  specialize (Hcur Hbs). unfold cursor_ok in Hcur.
  assert (Hlen' : Z.of_nat (length (buffer c)) = bs) by lia.
  split; [exact Hlen'|]. split; [lia|].
  intros Hfuel.
  assert (Hnz : (num_cycles_left c =? 0) = false) by lia.
  assert (Hbz : (bs =? 0) = false) by lia.
  split; intros Hfetch; rewrite Code_exec_iter_unfold, Hfetch, Hnz; simpl;
    unfold bind, ret, Context_pointer, Context_set_pointer, mod_; simpl;
    rewrite Hlen', Hbz; simpl.
  - split; [reflexivity|]. split; [apply Z.mod_pos_bound; lia|].
    intros ->. replace (bs - 1 + 1) with bs by lia. apply Z_mod_same_full.
  - split; [reflexivity|]. split; [apply Z.mod_pos_bound; lia|].
    intros ->. change (0 - 1) with (-1).
    rewrite <- (Z.mod_add (-1) 1 bs) by lia.
    rewrite Z.mod_small by lia. lia.
Qed.

Lemma C7_cursor_wraps_on_nonempty_tape_witness :
  Code_exec_iter (mkCode [BackwardToken; ExitToken]) 0 (Context_init None bytes_sink 4 3)
  = (Ok (Some (0 + 1)),
     set_ptr ((ptr (Context_init None bytes_sink 4 3) - 1) mod 4) (tick (Context_init None bytes_sink 4 3))).
Proof.
  refine (proj1 (proj2 (proj2 (proj2 (C7_cursor_wraps_on_nonempty_tape
                                        (mkCode [BackwardToken; ExitToken]) None bytes_sink 4 3 0
                                        (Context_init None bytes_sink 4 3) _ _)) _) _)).
  - lia.
  - apply reachable_start.
  - simpl. lia.
  - reflexivity.
Defined.

(** C7 fails as stated for a tape of capacity 0: the cursor starts at 0,
    which is not within [0, 0), and the program [>;] ends in
    [ZeroDivisionError] at its first instruction. *)
Lemma C7_counterexample :
  length (buffer (Context_init None bytes_sink 0 5)) = 0%nat /\
  reachable (mkCode [ForwardToken; ExitToken]) (Context_init None bytes_sink 0 5)
    0 (Context_init None bytes_sink 0 5) /\
  ~ (0 <= ptr (Context_init None bytes_sink 0 5) < Z.of_nat (length (buffer (Context_init None bytes_sink 0 5)))) /\
  éxec 1 [">"; ";"]%byte None bytes_sink 0 5
  = Some (Raise ZeroDivisionError, tick (Context_init None bytes_sink 0 5)).
Proof.
  split; [reflexivity|]. split; [apply reachable_start|].
  split; [simpl; lia|reflexivity].
Qed.

Lemma Code_parse_loop_step (source_code : SourceCode) (acc : list Token) :
  Code_parse_loop source_code acc =
  match SourceCode_read_next_token source_code with
  | (Raise e, source_code') => (Raise e, source_code')
  | (Ok [], source_code') => (Ok acc, source_code')
  | (Ok (b :: token), source_code') =>
      match new_token (b :: token) with
      | Raise e => (Raise e, source_code')
      | Ok t => Code_parse_loop source_code' (acc ++ [t])
      end
  end.
Proof.
  apply (Code_parse_loop_elim
           (fun source_code acc r =>
              r = match SourceCode_read_next_token source_code with
                  | (Raise e, source_code') => (Raise e, source_code')
                  | (Ok [], source_code') => (Ok acc, source_code')
                  | (Ok (b :: token), source_code') =>
                      match new_token (b :: token) with
                      | Raise e => (Raise e, source_code')
                      | Ok t => Code_parse_loop source_code' (acc ++ [t])
                      end
                  end)).
  - intros sc sc' e acc0 _. rewrite e. reflexivity.
  - intros sc e sc' e1 acc0 _. rewrite e1. reflexivity.
  - intros sc b token t sc' Hread acc0 _ Hnew _. rewrite Hread, Hnew. reflexivity.
  - intros sc b token e sc' Hread acc0 Hnew _. rewrite Hread, Hnew. reflexivity.
Qed.

Lemma new_token_table (b : byte) :
  new_token [b] = match table b with
                  | Some t => Ok t
                  | None => Raise SyntaxError
                  end.
Proof. destruct b; reflexivity. Qed.

(** The source splits into a longest prefix inside the table and, when
    that is not all of it, the first byte outside. *)
Lemma table_scan (src : list byte) :
  (exists toks, Forall2 (fun b t => table b = Some t) src toks) \/
  (exists good toks b post,
      src = good ++ b :: post /\
      Forall2 (fun b t => table b = Some t) good toks /\
      table b = None).
Proof.
  induction src as [|b src IH].
  - left. exists []. constructor.
  - destruct (table b) as [t|] eqn:Hb.
    + destruct IH as [[toks H]|(good & toks & b' & post & -> & Hgood & Hb')].
      * left. exists (t :: toks). constructor; assumption.
      * right. exists (b :: good), (t :: toks), b', post.
        split; [reflexivity|]. split; [constructor; assumption|assumption].
    + right. exists [], [], b, src.
      split; [reflexivity|]. split; [constructor|assumption].
Qed.

Lemma Code_parse_loop_table (good : list byte) (toks : list Token) :
  Forall2 (fun b t => table b = Some t) good toks ->
  forall (pre rest : list byte) (acc : list Token),
    Code_parse_loop {| code := pre ++ good ++ rest; src_ptr := Z.of_nat (length pre) |} acc
    = Code_parse_loop {| code := pre ++ good ++ rest;
                         src_ptr := Z.of_nat (length pre) + Z.of_nat (length good) |}
        (acc ++ toks).
Proof.
  induction 1 as [|b t good toks Hb _ IH]; intros pre rest acc.
  - simpl. rewrite Z.add_0_r, app_nil_r. reflexivity.
  - rewrite Code_parse_loop_step. unfold SourceCode_read_next_token. simpl code.
    simpl src_ptr. simpl app. rewrite slice_at, new_token_table, Hb.
    specialize (IH (pre ++ [b]) rest (acc ++ [t])).
    rewrite <- !app_assoc, length_app in IH. simpl in IH.
    replace (Z.of_nat (length pre + 1)) with (Z.of_nat (length pre) + 1) in IH by lia.
    rewrite IH. simpl length. f_equal. f_equal. lia.
Qed.

(** C8: [Code.parse] maps the source byte by byte through the table, in
    order and one token per byte, reading the source to its end; it raises
    [SyntaxError] exactly when some byte is outside the table, and then it
    has read the source up to that byte and no further, and returns no
    [Code] at all. *)
Theorem C8_parse_follows_table (src : list byte) :
  ((exists toks,
       Forall2 (fun b t => table b = Some t) src toks /\
       length toks = length src /\
       Code_parse (SourceCode_init src)
       = (Ok (mkCode toks), {| code := src; src_ptr := Z.of_nat (length src) + 1 |})) \/
   (exists good toks b post,
       src = good ++ b :: post /\
       Forall2 (fun b t => table b = Some t) good toks /\
       table b = None /\
       Code_parse (SourceCode_init src)
       = (Raise SyntaxError, {| code := src; src_ptr := Z.of_nat (length good) + 1 |}))) /\
  (fst (Code_parse (SourceCode_init src)) = Raise SyntaxError <->
   Exists (fun b => table b = None) src).
Proof.
  assert (Hall : forall toks,
             Forall2 (fun b t => table b = Some t) src toks ->
             Code_parse (SourceCode_init src)
             = (Ok (mkCode toks), {| code := src; src_ptr := Z.of_nat (length src) + 1 |})).
  { intros toks Htoks. unfold Code_parse, SourceCode_init.
    pose proof (Code_parse_loop_table src toks Htoks [] [] []) as Hloop.
    simpl in Hloop. change (Z.of_nat 0) with 0 in Hloop.
    rewrite app_nil_r, Z.add_0_l in Hloop. rewrite Hloop.
    rewrite Code_parse_loop_step. unfold SourceCode_read_next_token. simpl.
    rewrite slice_at_end. reflexivity. }
  assert (Hbad : forall good toks b post,
             src = good ++ b :: post ->
             Forall2 (fun b t => table b = Some t) good toks ->
             table b = None ->
             Code_parse (SourceCode_init src)
             = (Raise SyntaxError, {| code := src; src_ptr := Z.of_nat (length good) + 1 |})).
  { intros good toks b post -> Hgood Hb. unfold Code_parse, SourceCode_init.
    pose proof (Code_parse_loop_table good toks Hgood [] (b :: post) []) as Hloop.
    simpl in Hloop. change (Z.of_nat 0) with 0 in Hloop.
    rewrite Z.add_0_l in Hloop. rewrite Hloop.
    rewrite Code_parse_loop_step. unfold SourceCode_read_next_token. simpl.
    rewrite slice_at, new_token_table, Hb. reflexivity. }
  destruct (table_scan src) as [[toks Htoks]|(good & toks & b & post & Hsrc & Hgood & Hb)].
  - split.
    + left. exists toks. split; [assumption|]. split; [|exact (Hall toks Htoks)].
      symmetry. exact (Forall2_length _ _ _ Htoks).
    + rewrite (Hall toks Htoks). simpl. split; [discriminate|].
      intros Hex. exfalso. apply Exists_exists in Hex as (b & Hin & Hb).
      apply list_elem_of_lookup in Hin as [i Hi].
      destruct (Forall2_lookup_l _ _ _ _ _ Htoks Hi) as (t & _ & Ht). congruence.
  - split.
    + right. exists good, toks, b, post.
      split; [assumption|]. split; [assumption|]. split; [assumption|].
      exact (Hbad good toks b post Hsrc Hgood Hb).
    + rewrite (Hbad good toks b post Hsrc Hgood Hb). simpl. split; [|reflexivity].
      intros _. subst src. apply Exists_app. right. apply Exists_cons_hd. assumption.
Qed.

Example parse_stops_at_bad_byte :
  Code_parse (SourceCode_init ["+"; "@"; ";"; "@"]%byte)
  = (Raise SyntaxError, {| code := ["+"; "@"; ";"; "@"]%byte; src_ptr := 2 |}).
Proof. reflexivity. Qed.

(** A [GoToToken] at address 0 dispatched on a zero cell comes back to
    itself for as long as the budget lasts. *)
Lemma goto_zero_spins (k : nat) :
  forall c : Context,
    cursor_ok c ->
    buffer c !! Z.to_nat (ptr c) = Some 0 ->
    Z.of_nat k <= num_cycles_left c ->
    Code_iterate k (mkCode [GoToToken; ExitToken]) 0 c
    = Some (0, set_num_cycles_left (num_cycles_left c - Z.of_nat k) c).
Proof.
  induction k as [|k IH]; intros c Hcur Hcell Hfuel.
  - simpl. rewrite Z.sub_0_r. destruct c; reflexivity.
  - assert (Hstep : Code_exec_iter (mkCode [GoToToken; ExitToken]) 0 c = (Ok (Some 0), tick c)).
    { rewrite Code_exec_iter_unfold. simpl.
      destruct (num_cycles_left c =? 0) eqn:E; [lia|].
      unfold Context_current_value. simpl.
      rewrite (getitem_lookup _ _ _ (proj1 Hcur) Hcell). reflexivity. }
    change (Code_iterate (S k) (mkCode [GoToToken; ExitToken]) 0 c)
      with (match Code_exec_iter (mkCode [GoToToken; ExitToken]) 0 c with
            | (Ok (Some code_pt'), c') =>
                Code_iterate k (mkCode [GoToToken; ExitToken]) code_pt' c'
            | _ => None
            end).
    rewrite Hstep, IH; [| exact Hcur | exact Hcell | simpl; lia].
    unfold set_num_cycles_left, tick. simpl. do 3 f_equal. lia.
Qed.

Lemma parse_goto_exit :
  Code_parse (SourceCode_init ["^"; ";"]%byte)
  = (Ok (mkCode [GoToToken; ExitToken]), {| code := ["^"; ";"]%byte; src_ptr := 3 |}).
Proof. reflexivity. Qed.

(** C9: the program [^;] run with a budget of 1000, on any tape of at
    least one cell and with any input, is back at address 0 after each of
    its first 1000 iterations, with one unit of budget spent per iteration
    and nothing else changed; no run of at most 1000 iterations is over;
    and the run ends at the next fetch of the [GoToToken] in
    [TimeoutError], the budget at 0 and nothing written. *)
Theorem C9_goto_exit_spins_until_timeout (inp : option stream) (out : sink) (bs : Z) :
  1 <= bs ->
  (forall k : nat,
      Z.of_nat k <= 1000 ->
      Code_iterate k (mkCode [GoToToken; ExitToken]) 0 (Context_init inp out bs 1000)
      = Some (0, Context_init inp out bs (1000 - Z.of_nat k))) /\
  (forall gas : nat,
      Z.of_nat gas <= 1000 -> éxec gas ["^"; ";"]%byte inp out bs 1000 = None) /\
  (forall gas : nat,
      1000 < Z.of_nat gas ->
      éxec gas ["^"; ";"]%byte inp out bs 1000
      = Some (Raise TimeoutError, Context_init inp out bs 0)) /\
  output_file (Context_init inp out bs 0) = [] /\
  num_cycles_left (Context_init inp out bs 1000) - num_cycles_left (Context_init inp out bs 0) = 1000.
Proof.
  intros Hbs.
  assert (Hcur : cursor_ok (Context_init inp out bs 1000)).
  { unfold cursor_ok. simpl. rewrite length_replicate. lia. }
  assert (Hcell : buffer (Context_init inp out bs 1000) !! Z.to_nat (ptr (Context_init inp out bs 1000))
                  = Some 0).
  { simpl. apply lookup_replicate_2. lia. }
  assert (Hspin : forall k : nat,
             Z.of_nat k <= 1000 ->
             Code_iterate k (mkCode [GoToToken; ExitToken]) 0 (Context_init inp out bs 1000)
             = Some (0, Context_init inp out bs (1000 - Z.of_nat k))).
  { intros k Hk. rewrite goto_zero_spins by (auto; simpl; lia). reflexivity. }
  split; [exact Hspin|]. split; [|split; [|split; reflexivity]].
  - intros gas Hgas. unfold éxec. rewrite parse_goto_exit. unfold Code_exec.
    replace gas with (gas + 0)%nat by lia.
    rewrite (Code_exec_from_iterate _ _ _ _ _ _ _ (Hspin gas Hgas)). reflexivity.
  - intros gas Hgas. unfold éxec. rewrite parse_goto_exit. unfold Code_exec.
    replace gas with (Z.to_nat 1000 + S (gas - S (Z.to_nat 1000)))%nat by lia.
    assert (H1000 : Z.of_nat (Z.to_nat 1000) <= 1000) by lia.
    rewrite (Code_exec_from_iterate _ _ _ _ _ _ _ (Hspin (Z.to_nat 1000) H1000)).
    replace (1000 - Z.of_nat (Z.to_nat 1000)) with 0 by lia.
    reflexivity.
Qed.

Lemma C9_goto_exit_spins_until_timeout_witness :
  1 <= 2 ^ 16 /\
  éxec 1001 ["^"; ";"]%byte None bytes_sink (2 ^ 16) 1000
  = Some (Raise TimeoutError, Context_init None bytes_sink (2 ^ 16) 0).
Proof.
  split; [lia|].
  refine (proj1 (proj2 (proj2 (C9_goto_exit_spins_until_timeout None bytes_sink (2 ^ 16) _))) 1001%nat _);
    lia.
Defined.

(** * Further properties of the code *)

(** ** Reading and parsing the source *)

(** [SourceCode.read_next_token] never fails: at a position inside the
    source it returns the one byte there, at any position at or past the
    end it returns the empty token; the source is unchanged and the
    position moves on by one either way. *)
Theorem read_next_token_in_and_past_the_end (self : SourceCode) :
  0 <= src_ptr self ->
  SourceCode_read_next_token self
  = (Ok (match code self !! Z.to_nat (src_ptr self) with
         | Some b => [b]
         | None => []
         end),
     {| code := code self; src_ptr := src_ptr self + 1 |}).
Proof.
  intros Hp. unfold SourceCode_read_next_token. f_equal. f_equal.
  destruct (code self !! Z.to_nat (src_ptr self)) as [b|] eqn:Hb.
  - pose proof (lookup_lt_Some _ _ _ Hb) as Hlt.
    assert (Hsplit : exists l1 l2,
               code self = l1 ++ b :: l2 /\ src_ptr self = Z.of_nat (length l1)).
    { exists (take (Z.to_nat (src_ptr self)) (code self)),
        (drop (S (Z.to_nat (src_ptr self))) (code self)).
      split; [symmetry; apply take_drop_middle; exact Hb|].
      rewrite length_take. lia. }
    destruct Hsplit as (l1 & l2 & -> & ->). apply slice_at.
  - apply lookup_ge_None_1 in Hb.
    destruct (slice (code self) (src_ptr self) (src_ptr self + 1)) eqn:E; [reflexivity|].
    assert (H : slice (code self) (src_ptr self) (src_ptr self + 1) <> [])
      by (rewrite E; discriminate).
    apply slice_one_nonempty in H. lia.
Qed.

Lemma read_next_token_in_and_past_the_end_witness :
  SourceCode_read_next_token {| code := ["+"; ";"]%byte; src_ptr := 5 |}
  = (Ok (match ["+"; ";"]%byte !! Z.to_nat 5 with
         | Some b => [b]
         | None => []
         end),
     {| code := ["+"; ";"]%byte; src_ptr := 5 + 1 |}).
Proof.
  apply (read_next_token_in_and_past_the_end {| code := ["+"; ";"]%byte; src_ptr := 5 |}).
  simpl. lia.
Defined.

Lemma Code_parse_all_in_table (src : list byte) (toks : list Token) :
  Forall2 (fun b t => table b = Some t) src toks ->
  Code_parse (SourceCode_init src)
  = (Ok (mkCode toks), {| code := src; src_ptr := Z.of_nat (length src) + 1 |}).
Proof.
  intros Htoks. unfold Code_parse, SourceCode_init.
  pose proof (Code_parse_loop_table src toks Htoks [] [] []) as Hloop.
  simpl in Hloop. change (Z.of_nat 0) with 0 in Hloop.
  rewrite app_nil_r, Z.add_0_l in Hloop. rewrite Hloop.
  rewrite Code_parse_loop_step. unfold SourceCode_read_next_token. simpl.
  rewrite slice_at_end. reflexivity.
Qed.

Lemma Code_parse_first_outside (good : list byte) (toks : list Token) (b : byte)
    (post : list byte) :
  Forall2 (fun b t => table b = Some t) good toks ->
  table b = None ->
  Code_parse (SourceCode_init (good ++ b :: post))
  = (Raise SyntaxError,
     {| code := good ++ b :: post; src_ptr := Z.of_nat (length good) + 1 |}).
Proof.
  intros Hgood Hb. unfold Code_parse, SourceCode_init.
  pose proof (Code_parse_loop_table good toks Hgood [] (b :: post) []) as Hloop.
  simpl in Hloop. change (Z.of_nat 0) with 0 in Hloop.
  rewrite Z.add_0_l in Hloop. rewrite Hloop.
  rewrite Code_parse_loop_step. unfold SourceCode_read_next_token. simpl.
  rewrite slice_at, new_token_table, Hb. reflexivity.
Qed.

(** What a successful parse says about the source. *)
Lemma Code_parse_Ok_inv (src : list byte) (self : Code) (sc : SourceCode) :
  Code_parse (SourceCode_init src) = (Ok self, sc) ->
  Forall2 (fun b t => table b = Some t) src (tokens self).
Proof.
  intros H.
  destruct (table_scan src) as [[toks Htoks]|(good & toks & b & post & -> & Hgood & Hb)].
  - rewrite (Code_parse_all_in_table _ _ Htoks) in H. injection H as <- _. exact Htoks.
  - rewrite (Code_parse_first_outside _ _ _ _ Hgood Hb) in H. discriminate.
Qed.

Lemma Code_parse_only_SyntaxError (src : list byte) (e : exn) (sc : SourceCode) :
  Code_parse (SourceCode_init src) = (Raise e, sc) -> e = SyntaxError.
Proof.
  intros H.
  destruct (table_scan src) as [[toks Htoks]|(good & toks & b & post & -> & Hgood & Hb)].
  - rewrite (Code_parse_all_in_table _ _ Htoks) in H. discriminate.
  - rewrite (Code_parse_first_outside _ _ _ _ Hgood Hb) in H. congruence.
Qed.

Lemma table_injective (b1 b2 : byte) (t : Token) :
  table b1 = Some t -> table b2 = Some t -> b1 = b2.
Proof.
  destruct b1; simpl; try discriminate; intros [= <-];
    destruct b2; simpl; try discriminate; reflexivity.
Qed.

(** [Code.parse] loses nothing: two sources that parse to the same code
    are the same source. *)
Theorem Code_parse_injective (src1 src2 : list byte) (self : Code)
    (sc1 sc2 : SourceCode) :
  Code_parse (SourceCode_init src1) = (Ok self, sc1) ->
  Code_parse (SourceCode_init src2) = (Ok self, sc2) ->
  src1 = src2.
Proof.
  intros H1 H2. apply Code_parse_Ok_inv in H1, H2.
  revert src2 H2. induction H1 as [|b1 t src1 toks Hb1 _ IH]; intros src2 H2.
  - inversion H2. reflexivity.
  - inversion H2 as [|b2 t' src2' toks' Hb2 Hrest]; subst.
    f_equal; [exact (table_injective _ _ _ Hb1 Hb2)|exact (IH _ Hrest)].
Qed.

Lemma Code_parse_injective_witness :
  ["+"; "^"; ";"]%byte = ["+"; "^"; ";"]%byte.
Proof.
  apply (Code_parse_injective ["+"; "^"; ";"]%byte ["+"; "^"; ";"]%byte
           (mkCode [PlusToken; GoToToken; ExitToken])
           {| code := ["+"; "^"; ";"]%byte; src_ptr := 4 |}
           {| code := ["+"; "^"; ";"]%byte; src_ptr := 4 |}); reflexivity.
Defined.

(** [Code.parse] works piece by piece: the code of two sources put end to
    end is the tokens of the first followed by the tokens of the second,
    and a source whose beginning does not parse does not parse, the
    reading stopping at the same byte. *)
Theorem Code_parse_app (src1 src2 : list byte) :
  (forall self1 self2 sc1 sc2,
      Code_parse (SourceCode_init src1) = (Ok self1, sc1) ->
      Code_parse (SourceCode_init src2) = (Ok self2, sc2) ->
      Code_parse (SourceCode_init (src1 ++ src2))
      = (Ok (mkCode (tokens self1 ++ tokens self2)),
         {| code := src1 ++ src2; src_ptr := Z.of_nat (length (src1 ++ src2)) + 1 |})) /\
  (forall e sc1,
      Code_parse (SourceCode_init src1) = (Raise e, sc1) ->
      Code_parse (SourceCode_init (src1 ++ src2))
      = (Raise SyntaxError, {| code := src1 ++ src2; src_ptr := src_ptr sc1 |})).
Proof.
  split.
  - intros self1 self2 sc1 sc2 H1 H2. apply Code_parse_Ok_inv in H1, H2.
    apply Code_parse_all_in_table. apply Forall2_app; assumption.
  - intros e sc1 H1.
    destruct (table_scan src1) as [[toks Htoks]|(good & toks & b & post & -> & Hgood & Hb)].
    + rewrite (Code_parse_all_in_table _ _ Htoks) in H1. discriminate.
    + rewrite (Code_parse_first_outside _ _ _ _ Hgood Hb) in H1. injection H1 as _ <-.
      rewrite <- app_assoc. simpl.
      exact (Code_parse_first_outside _ _ _ _ Hgood Hb).
Qed.

(** ** What one instruction touches *)

Lemma setitem_other {A} (l : list A) (i : Z) (x : A) (l' : list A) :
  0 <= i -> setitem l i x = Ok l' ->
  forall j : nat, j <> Z.to_nat i -> l' !! j = l !! j.
Proof.
  intros Hi H j Hj.
  destruct (Z_lt_ge_dec i (Z.of_nat (length l))) as [Hlt|Hge].
  - rewrite setitem_inrange in H by lia. injection H as <-.
    apply list_lookup_insert_ne. congruence.
  - rewrite setitem_beyond in H by lia. discriminate.
Qed.

Lemma Token_exec_tape (token : Token) (c : Context) (r : result Z) (c' : Context) :
  Token_exec token c = (r, c') ->
  (0 <= ptr c -> forall j : nat, j <> Z.to_nat (ptr c) -> buffer c' !! j = buffer c !! j) /\
  (token <> PlusToken -> token <> MinusToken -> token <> ReadToken ->
   buffer c' = buffer c) /\
  (token <> ForwardToken -> token <> BackwardToken -> ptr c' = ptr c).
Proof.
  destruct token; intros H; crunch;
    (split; [intros Hp j Hj|split; intros; congruence || reflexivity]);
    try reflexivity;
    match goal with
    | H : setitem _ _ _ = Ok _ |- _ => exact (setitem_other _ _ _ _ Hp H j Hj)
    end.
Qed.

Lemma Token_exec_output (token : Token) (c : Context) (r : result Z) (c' : Context) :
  Token_exec token c = (r, c') ->
  output_file c' = output_file c \/
  (token = PrintToken /\ r = Ok (-1) /\
   exists v, getitem (buffer c) (ptr c) = Ok v /\ 0 <= v < 256 /\
             output_file c' = output_file c ++ [v]).
Proof.
  destruct token; intros H; crunch; try (left; reflexivity).
  all: right; split; [reflexivity|]; split; [reflexivity|];
    unfold bytes in *; simpl in *;
    match goal with
    | H : (if ?b then _ else _) = Ok _ |- _ => destruct b eqn:E; [|discriminate]
    end;
    inv_pair; eexists; split; [reflexivity|]; split; [lia|reflexivity].
Qed.

Lemma stream_read_one (data : list Z) :
  stream_read 1 data = (take 1 data, drop 1 data).
Proof. reflexivity. Qed.

Lemma Token_exec_input (token : Token) (c : Context) (r : result Z) (c' : Context) :
  Token_exec token c = (r, c') ->
  (token <> ReadToken -> input_file c' = input_file c) /\
  match input_file c, input_file c' with
  | None, None => True
  | Some s, Some s' =>
      stream_later s s' /\
      (stream_data s' = stream_data s \/ stream_data s' = drop 1 (stream_data s))
  | _, _ => False
  end.
Proof.
  assert (Hrefl : forall s, stream_later s s /\
                            (stream_data s = stream_data s \/
                             stream_data s = drop 1 (stream_data s))).
  { intros [d|d|d]; (split; [exists 0%nat; reflexivity|left; reflexivity]). }
  destruct token; intros H;
    try (assert (input_file c' = input_file c) as ->
          by (crunch; reflexivity);
         split; [reflexivity|];
         destruct (input_file c); [apply Hrefl|exact I]).
  split; [congruence|].
  unfold Token_exec, bind, lift, Context_read in H.
  destruct (input_file c) as [[d|d|d]|] eqn:Hin; rewrite ?stream_read_one in H;
    crunch; rewrite ?Hin; simpl; try exact I; try congruence;
    (split; [exists 1%nat; reflexivity|right; reflexivity]).
Qed.

Lemma budget_blind_bind {A B} (m : M Context A) (f : A -> M Context B) :
  budget_blind m -> (forall a, budget_blind (f a)) -> budget_blind (bind m f).
Proof.
  intros Hm Hf k c. unfold bind. rewrite Hm.
  destruct (m c) as [[a|e] c1]; simpl; [apply Hf|reflexivity].
Qed.

Lemma budget_blind_ret {A} (a : A) : budget_blind (ret a).
Proof. intros k c. reflexivity. Qed.

Lemma budget_blind_lift {A} (r : result A) : budget_blind (lift r).
Proof. intros k c. reflexivity. Qed.

Lemma budget_blind_current_value : budget_blind Context_current_value.
Proof. intros k c. reflexivity. Qed.

Lemma budget_blind_set_current_value (v : Z) : budget_blind (Context_set_current_value v).
Proof.
  intros k c. unfold Context_set_current_value. simpl.
  destruct (setitem (buffer c) (ptr c) (Z.land v 255)); reflexivity.
Qed.

Lemma budget_blind_pointer : budget_blind Context_pointer.
Proof. intros k c. reflexivity. Qed.

Lemma budget_blind_set_pointer (v : Z) : budget_blind (Context_set_pointer v).
Proof.
  intros k c. unfold Context_set_pointer. simpl.
  destruct (mod_ v (Z.of_nat (length (buffer c)))); reflexivity.
Qed.

Lemma budget_blind_write (b : list Z) : budget_blind (Context_write b).
Proof.
  intros k c. unfold Context_write. simpl.
  destruct (output_kind c) as [encodes| |]; try reflexivity.
  destruct (forallb encodes b); reflexivity.
Qed.

Lemma budget_blind_read (n : Z) : budget_blind (Context_read n).
Proof.
  intros k c. unfold Context_read. simpl.
  destruct (input_file c) as [[d|d|d]|]; try reflexivity;
    destruct (stream_read n d); reflexivity.
Qed.

(** No instruction looks at the budget. *)
Lemma Token_exec_budget (token : Token) : budget_blind (Token_exec token).
Proof.
  destruct token; unfold Token_exec;
    repeat first
      [ apply budget_blind_bind; [|intros ?]
      | apply budget_blind_ret
      | apply budget_blind_lift
      | apply budget_blind_current_value
      | apply budget_blind_set_current_value
      | apply budget_blind_pointer
      | apply budget_blind_set_pointer
      | apply budget_blind_write
      | apply budget_blind_read ].
Qed.

(** The four ways an iteration of the loop can go. *)
Lemma Code_exec_iter_cases (self : Code) (code_pt : Z) (c : Context)
    (r : result (option Z)) (c' : Context) :
  Code_exec_iter self code_pt c = (r, c') ->
  (getitem (tokens self) code_pt = Raise IndexError /\ r = Raise IndexError /\ c' = c) \/
  (getitem (tokens self) code_pt = Ok ExitToken /\ r = Ok None /\ c' = c) \/
  (exists token,
      getitem (tokens self) code_pt = Ok token /\ token <> ExitToken /\
      num_cycles_left c = 0 /\ r = Raise TimeoutError /\ c' = c) \/
  (exists token r0,
      getitem (tokens self) code_pt = Ok token /\ token <> ExitToken /\
      num_cycles_left c <> 0 /\
      Token_exec token (tick c) = (r0, c') /\
      r = match r0 with
          | Ok pt => Ok (Some (if pt <? 0 then code_pt + 1 else pt))
          | Raise e => Raise e
          end).
Proof.
  rewrite Code_exec_iter_unfold.
  destruct (getitem (tokens self) code_pt) as [token|e] eqn:Hfetch.
  - destruct (decide (token = ExitToken)) as [->|Hne].
    + intros [= <- <-]. right. left. auto.
    + destruct (num_cycles_left c =? 0) eqn:E.
      * intros [= <- <-]. right. right. left. exists token.
        repeat split; auto. lia.
      * intros H. right. right. right.
        destruct (Token_exec token (tick c)) as [r0 c1] eqn:Hexec.
        exists token, r0.
        split; [reflexivity|]. split; [assumption|]. split; [lia|].
        destruct r0; injection H as <- <-; (split; [exact Hexec|reflexivity]).
  - intros [= <- <-]. left.
    assert (e = IndexError) as ->.
    { unfold getitem in Hfetch.
      destruct (index _ _); [destruct (_ !! _)|]; congruence. }
    auto.
Qed.

(** An instruction changes no cell but the one under the cursor, never the
    size of the tape, the cursor only if it is a [ForwardToken] or a
    [BackwardToken], the tape only if it is a [PlusToken], a [MinusToken]
    or a [ReadToken], the sink only if it is a [PrintToken], the input
    only if it is a [ReadToken]; and that also when it raises. *)
Theorem instruction_footprint
    (self : Code) (inp : option stream) (out : sink) (bs lim : Z)
    (code_pt : Z) (c : Context) (token : Token) (r : result (option Z)) (c' : Context) :
  reachable self (Context_init inp out bs lim) code_pt c ->
  getitem (tokens self) code_pt = Ok token ->
  Code_exec_iter self code_pt c = (r, c') ->
  length (buffer c') = length (buffer c) /\
  (forall j : nat, j <> Z.to_nat (ptr c) -> buffer c' !! j = buffer c !! j) /\
  (token <> PlusToken -> token <> MinusToken -> token <> ReadToken ->
   buffer c' = buffer c) /\
  (token <> ForwardToken -> token <> BackwardToken -> ptr c' = ptr c) /\
  (token <> PrintToken -> output_file c' = output_file c) /\
  (token <> ReadToken -> input_file c' = input_file c).
Proof.
  intros Hreach Hfetch Hiter.
  destruct (reachable_inv _ _ _ _ _ _ _ Hreach) as (_ & _ & Hlen & Hcur).
  apply Code_exec_iter_cases in Hiter
    as [(_ & _ & ->)|[(_ & _ & ->)|[(t & _ & _ & _ & _ & ->)|
        (t & r0 & Hfetch' & _ & _ & Hexec & _)]]];
    try (repeat split; reflexivity).
  assert (t = token) as -> by congruence.
  destruct (Token_exec_frame _ _ _ _ Hexec) as (_ & Hl & _ & _).
  destruct (Token_exec_tape _ _ _ _ Hexec) as (Hother & Htape & Hptr).
  destruct (Token_exec_input _ _ _ _ Hexec) as (Hinput & _).
  simpl in *.
  split; [exact Hl|]. split; [|split; [exact Htape|split; [exact Hptr|split]]].
  - intros j Hj. destruct (Z_le_gt_dec 1 bs) as [Hbs|Hbs].
    + apply Hother; [apply (Hcur Hbs)|exact Hj].
    + rewrite !(lookup_ge_None_2) by lia. reflexivity.
  - intros Hnp. destruct (Token_exec_output _ _ _ _ Hexec) as [Hout|(-> & _)].
    + exact Hout.
    + contradiction.
  - exact Hinput.
Qed.

Lemma instruction_footprint_witness :
  length (buffer (tick (Context_init None bytes_sink 3 5))) = length (buffer (Context_init None bytes_sink 3 5)).
Proof.
  refine (proj1 (instruction_footprint (mkCode [GoToToken; ExitToken]) None bytes_sink 3 5 0
                   (Context_init None bytes_sink 3 5) GoToToken (Ok (Some 0))
                   (tick (Context_init None bytes_sink 3 5)) _ _ _)).
  - apply reachable_start.
  - reflexivity.
  - reflexivity.
Defined.

(** ** The sink and the input along a run *)

Lemma Code_exec_iter_output (self : Code) (code_pt : Z) (c : Context)
    (r : result (option Z)) (c' : Context) :
  Code_exec_iter self code_pt c = (r, c') ->
  output_file c' = output_file c \/
  (getitem (tokens self) code_pt = Ok PrintToken /\
   num_cycles_left c' = num_cycles_left c - 1 /\
   exists v, getitem (buffer c) (ptr c) = Ok v /\ 0 <= v < 256 /\
             output_file c' = output_file c ++ [v]).
Proof.
  intros Hiter.
  apply Code_exec_iter_cases in Hiter
    as [(_ & _ & ->)|[(_ & _ & ->)|[(t & _ & _ & _ & _ & ->)|
        (t & r0 & Hfetch & _ & _ & Hexec & _)]]]; auto.
  destruct (Token_exec_frame _ _ _ _ Hexec) as (Hfuel & _).
  destruct (Token_exec_output _ _ _ _ Hexec) as [Hout|(-> & _ & v & Hv & Hrange & Hout)].
  - left. exact Hout.
  - right. split; [exact Hfetch|]. split; [exact Hfuel|]. exists v. auto.
Qed.

(** Whatever has been written stays written: an iteration leaves the sink
    as it is or, when it dispatches a [PrintToken] that returns, adds the
    value of the current cell at its end.  So in every state of a run the
    sink holds only values in [0, 255], at most one per instruction
    dispatched so far. *)
Theorem output_is_append_only
    (self : Code) (inp : option stream) (out : sink) (bs lim : Z) (code_pt : Z) (c : Context) :
  reachable self (Context_init inp out bs lim) code_pt c ->
  Forall (fun v => 0 <= v < 256) (output_file c) /\
  Z.of_nat (length (output_file c)) <= lim - num_cycles_left c /\
  forall r c',
    Code_exec_iter self code_pt c = (r, c') ->
    output_file c' = output_file c \/
    (getitem (tokens self) code_pt = Ok PrintToken /\
     exists v, buffer c !! Z.to_nat (ptr c) = Some v /\
               output_file c' = output_file c ++ [v]).
Proof.
  intros Hreach.
  assert (Hinv : Forall (fun v => 0 <= v < 256) (output_file c) /\
                 Z.of_nat (length (output_file c)) <= lim - num_cycles_left c).
  { induction Hreach as [|pc c pc' c' _ [IH1 IH2] Hstep].
    - simpl. split; [constructor|lia].
    - pose proof (Code_exec_iter_inv _ _ _ _ _ Hstep) as (_ & Hfuel & _).
      destruct (Code_exec_iter_output _ _ _ _ _ Hstep)
        as [->|(_ & _ & v & _ & Hrange & ->)].
      + split; [exact IH1|lia].
      + split.
        * apply Forall_app. split; [exact IH1|]. constructor; [exact Hrange|constructor].
        * rewrite length_app. simpl. lia. }
  destruct Hinv as [H1 H2]. split; [exact H1|]. split; [exact H2|].
  intros r c' Hiter.
  destruct (Code_exec_iter_output _ _ _ _ _ Hiter) as [Hout|(Hfetch & _ & v & Hv & _ & Hout)].
  - left. exact Hout.
  - right. split; [exact Hfetch|]. exists v. split; [|exact Hout].
    destruct (reachable_inv _ _ _ _ _ _ _ Hreach) as (_ & _ & Hlen & Hcur).
    destruct (Z_le_gt_dec 1 bs) as [Hbs|Hbs].
    + apply getitem_Ok; [apply (Hcur Hbs)|exact Hv].
    + exfalso. unfold getitem in Hv.
      destruct (index _ _) as [n|]; [|discriminate].
      rewrite lookup_ge_None_2 in Hv by lia. discriminate.
Qed.

Lemma output_is_append_only_witness :
  Forall (fun v => 0 <= v < 256)
    (output_file {| buffer := [1]; ptr := 0; input_file := None;
                    output_kind := bytes_sink; output_file := [1];
                    num_cycles_left := 3 |}).
Proof.
  refine (proj1 (output_is_append_only (mkCode [PlusToken; PrintToken; ExitToken]) None bytes_sink 1 5 2
                   {| buffer := [1]; ptr := 0; input_file := None;
                      output_kind := bytes_sink; output_file := [1];
                      num_cycles_left := 3 |} _)).
  eapply reachable_next;
    [eapply reachable_next; [apply reachable_start|cbv; reflexivity]|cbv; reflexivity].
Defined.

Lemma stream_later_refl (s : stream) : stream_later s s.
Proof. destruct s; exists 0%nat; reflexivity. Qed.

Lemma stream_later_trans (s1 s2 s3 : stream) :
  stream_later s1 s2 -> stream_later s2 s3 -> stream_later s1 s3.
Proof.
  destruct s1, s2, s3; simpl; try contradiction;
    intros [n ->] [m ->]; exists (n + m)%nat; apply drop_drop.
Qed.

Lemma Code_exec_iter_input (self : Code) (code_pt : Z) (c : Context)
    (r : result (option Z)) (c' : Context) :
  Code_exec_iter self code_pt c = (r, c') ->
  (getitem (tokens self) code_pt <> Ok ReadToken -> input_file c' = input_file c) /\
  match input_file c, input_file c' with
  | None, None => True
  | Some s, Some s' =>
      stream_later s s' /\
      (stream_data s' = stream_data s \/ stream_data s' = drop 1 (stream_data s))
  | _, _ => False
  end.
Proof.
  intros Hiter.
  assert (Hsame : input_file c' = input_file c ->
                  match input_file c, input_file c' with
                  | None, None => True
                  | Some s, Some s' =>
                      stream_later s s' /\
                      (stream_data s' = stream_data s \/
                       stream_data s' = drop 1 (stream_data s))
                  | _, _ => False
                  end).
  { intros ->. destruct (input_file c) as [s|]; [|exact I].
    split; [apply stream_later_refl|left; reflexivity]. }
  apply Code_exec_iter_cases in Hiter
    as [(_ & _ & ->)|[(_ & _ & ->)|[(t & _ & _ & _ & _ & ->)|
        (t & r0 & Hfetch & _ & _ & Hexec & _)]]];
    try (split; [reflexivity|apply Hsame; reflexivity]).
  destruct (Token_exec_input _ _ _ _ Hexec) as (Hne & Hlater). simpl in *.
  split; [|exact Hlater].
  intros Hnr. apply Hne. congruence.
Qed.

Lemma reachable_input_later
    (self : Code) (inp : option stream) (out : sink) (bs lim : Z) (code_pt : Z) (c : Context) :
  reachable self (Context_init inp out bs lim) code_pt c ->
  input_later inp (input_file c).
Proof.
  induction 1 as [|pc c pc' c' _ IH Hstep].
  - simpl. destruct inp as [s|]; [apply stream_later_refl|exact I].
  - apply Code_exec_iter_input in Hstep as (_ & Hstep).
    unfold input_later in *.
    destruct inp as [s0|], (input_file c) as [s|], (input_file c') as [s'|];
      try contradiction; try exact I.
    destruct Hstep as [Hstep _]. eapply stream_later_trans; eassumption.
Qed.

(** The input is only ever consumed from its front, one item at most per
    iteration, and only by a [ReadToken]: in every state of a run the
    input is the stream the run started with after some reads (an absent
    input stays absent), and an iteration on any other token leaves it as
    it is. *)
Theorem input_is_consumed_from_the_front
    (self : Code) (inp : option stream) (out : sink) (bs lim : Z) (code_pt : Z) (c : Context) :
  reachable self (Context_init inp out bs lim) code_pt c ->
  input_later inp (input_file c) /\
  forall r c',
    Code_exec_iter self code_pt c = (r, c') ->
    (getitem (tokens self) code_pt <> Ok ReadToken -> input_file c' = input_file c) /\
    match input_file c, input_file c' with
    | None, None => True
    | Some s, Some s' =>
        stream_later s s' /\
        (stream_data s' = stream_data s \/ stream_data s' = drop 1 (stream_data s))
    | _, _ => False
    end.
Proof.
  intros Hreach. split; [|intros r c'; apply Code_exec_iter_input].
  exact (reachable_input_later _ _ _ _ _ _ _ Hreach).
Qed.

Lemma input_is_consumed_from_the_front_witness :
  input_later (Some (str_stream [65; 66]))
    (input_file {| buffer := [65]; ptr := 0; input_file := Some (str_stream [66]);
                   output_kind := bytes_sink; output_file := []; num_cycles_left := 4 |}).
Proof.
  refine (proj1 (input_is_consumed_from_the_front
                   (mkCode [ReadToken; ExitToken]) (Some (str_stream [65; 66])) bytes_sink 1 5 1
                   {| buffer := [65]; ptr := 0; input_file := Some (str_stream [66]);
                      output_kind := bytes_sink; output_file := []; num_cycles_left := 4 |} _)).
  eapply reachable_next; [apply reachable_start|cbv; reflexivity].
Defined.

(** ** How a run can end *)

(** A run that is over ended in an iteration that started in a state the
    run passed through. *)
Lemma Code_exec_from_last (self : Code) (c0 : Context) (gas : nat) :
  forall code_pt c r c',
    reachable self c0 code_pt c ->
    Code_exec_from gas self code_pt c = Some (r, c') ->
    exists code_pt1 c1,
      reachable self c0 code_pt1 c1 /\
      ((r = Ok tt /\ Code_exec_iter self code_pt1 c1 = (Ok None, c')) \/
       (exists e, r = Raise e /\ Code_exec_iter self code_pt1 c1 = (Raise e, c'))).
Proof.
  induction gas as [|gas IH]; intros code_pt c r c' Hreach Hrun; [discriminate|].
  simpl in Hrun.
  destruct (Code_exec_iter self code_pt c) as [[[pc1|]|e] c1] eqn:Hiter.
  - eapply IH; [|exact Hrun]. econstructor; eassumption.
  - injection Hrun as <- <-. exists code_pt, c. split; [assumption|]. left. auto.
  - injection Hrun as <- <-. exists code_pt, c. split; [assumption|]. right. eauto.
Qed.

Lemma bytes_singleton (v : Z) :
  0 <= v < 256 -> bytes [v] = Ok [v].
Proof.
  intros H. unfold bytes. simpl.
  destruct ((0 <=? v) && (v <? 256)) eqn:E; [reflexivity|lia].
Qed.

(** No instruction changes what kind of sink the output is. *)
Lemma Token_exec_output_kind (token : Token) (c : Context) (r : result Z) (c' : Context) :
  Token_exec token c = (r, c') -> output_kind c' = output_kind c.
Proof. destruct token; intros H; crunch; simpl; congruence. Qed.

Lemma reachable_output_kind
    (self : Code) (inp : option stream) (out : sink) (bs lim : Z) (code_pt : Z) (c : Context) :
  reachable self (Context_init inp out bs lim) code_pt c -> output_kind c = out.
Proof.
  induction 1 as [|pc c pc' c' _ IH Hstep]; [reflexivity|].
  apply Code_exec_iter_next in Hstep as (t & pt & _ & _ & _ & Hexec & _).
  apply Token_exec_output_kind in Hexec. simpl in Hexec. congruence.
Qed.

(** With the cursor on a cell and bytes in the cells, only [ReadToken] and
    [PrintToken] can raise: the first on an item of the input that is not
    a byte, the second on a sink that does not take the value of the
    current cell. *)
Lemma Token_exec_raises (token : Token) (c : Context) (e : exn) (c' : Context) :
  cursor_ok c -> cells_ok c -> token <> ExitToken ->
  Token_exec token c = (Raise e, c') ->
  (token = ReadToken /\
   ((e = ValueError /\
     exists x data, input_file c = Some (str_stream (x :: data)) /\ ~ (0 <= x < 256) /\
                    c' = set_input_file (Some (str_stream data)) c) \/
    (e = TypeError /\
     exists x data, input_file c = Some (bytes_stream (x :: data)) /\
                    c' = set_input_file (Some (bytes_stream data)) c))) \/
  (token = PrintToken /\ c' = c /\
   exists v, buffer c !! Z.to_nat (ptr c) = Some v /\
             ((e = UnicodeEncodeError /\
               exists encodes, output_kind c = text_sink encodes /\ encodes v = false) \/
              (e = TypeError /\ output_kind c = str_only_sink))).
Proof.
  intros Hcur Hcells Hne Hexec.
  destruct (getitem_inrange (buffer c) (ptr c) Hcur) as (v & Hv & Hget).
  pose proof (Forall_lookup_1 _ _ _ _ Hcells Hv) as Hrange. simpl in Hrange.
  assert (Hlen : (Z.of_nat (length (buffer c)) =? 0) = false)
    by (unfold cursor_ok in Hcur; lia).
  destruct (decide (token = ReadToken)) as [->|Hnr].
  - left. split; [reflexivity|].
    unfold Token_exec, bind, lift, Context_read, Context_set_current_value in Hexec.
    destruct (input_file c) as [[d|d|d]|] eqn:Hin; rewrite ?stream_read_one in Hexec;
      try (destruct d as [|x d]); simpl in Hexec;
      rewrite ?setitem_inrange in Hexec by exact Hcur; try discriminate.
    + unfold bytes in Hexec. simpl in Hexec.
      destruct ((0 <=? x) && (x <? 256)) eqn:E; simpl in Hexec;
        rewrite ?setitem_inrange in Hexec by exact Hcur; [discriminate|].
      injection Hexec as <- <-. left. split; [reflexivity|].
      exists x, d. split; [reflexivity|]. split; [lia|reflexivity].
    + injection Hexec as <- <-. right. split; [reflexivity|].
      exists x, d. split; reflexivity.
  - destruct (decide (token = PrintToken)) as [->|Hnp].
    + right. split; [reflexivity|].
      unfold Token_exec, bind, ret, lift, Context_current_value, Context_write in Hexec.
      rewrite Hget, (bytes_singleton v Hrange) in Hexec. simpl in Hexec.
      destruct (output_kind c) as [encodes| |] eqn:Hkind.
      * destruct (encodes v) eqn:Henc; simpl in Hexec; [discriminate|].
        injection Hexec as <- <-. split; [reflexivity|]. exists v. split; [exact Hv|].
        left. split; [reflexivity|]. exists encodes. split; [reflexivity|exact Henc].
      * discriminate.
      * injection Hexec as <- <-. split; [reflexivity|]. exists v. split; [exact Hv|].
        right. split; reflexivity.
    + exfalso.
      destruct token; try contradiction;
        unfold Token_exec, bind, ret, lift, Context_current_value,
          Context_set_current_value, Context_pointer, Context_set_pointer, mod_ in Hexec;
        rewrite ?Hget, ?Hlen, ?setitem_inrange in Hexec by exact Hcur;
        discriminate.
Qed.

Lemma Code_exec_iter_raises
    (self : Code) (inp : option stream) (out : sink) (bs lim : Z)
    (code_pt : Z) (c : Context) (e : exn) (c' : Context) :
  1 <= bs ->
  reachable self (Context_init inp out bs lim) code_pt c ->
  Code_exec_iter self code_pt c = (Raise e, c') ->
  (e = IndexError /\ Z.of_nat (length (tokens self)) <= code_pt /\ c' = c) \/
  (e = TimeoutError /\ num_cycles_left c = 0 /\
   code_pt < Z.of_nat (length (tokens self)) /\ c' = c) \/
  (e = ValueError /\ getitem (tokens self) code_pt = Ok ReadToken /\
   exists x data, input_file c = Some (str_stream (x :: data)) /\ ~ (0 <= x < 256) /\
                  c' = set_input_file (Some (str_stream data)) (tick c)) \/
  (e = TypeError /\ getitem (tokens self) code_pt = Ok ReadToken /\
   exists x data, input_file c = Some (bytes_stream (x :: data)) /\
                  c' = set_input_file (Some (bytes_stream data)) (tick c)) \/
  (e = UnicodeEncodeError /\ getitem (tokens self) code_pt = Ok PrintToken /\
   c' = tick c /\
   exists v encodes, buffer c !! Z.to_nat (ptr c) = Some v /\
                     out = text_sink encodes /\ encodes v = false) \/
  (e = TypeError /\ getitem (tokens self) code_pt = Ok PrintToken /\
   c' = tick c /\ out = str_only_sink).
Proof.
  intros Hbs Hreach Hiter.
  destruct (reachable_inv _ _ _ _ _ _ _ Hreach) as (Hpc & Hcells & Hlen & Hcur).
  pose proof (reachable_output_kind _ _ _ _ _ _ _ Hreach) as Hkind.
  specialize (Hcur Hbs).
  apply Code_exec_iter_cases in Hiter
    as [(Hfetch & Hr & ->)|[(_ & Hr & _)|[(t & Hfetch & _ & Hfuel & Hr & ->)|
        (t & r0 & Hfetch & Hne & _ & Hexec & Hr)]]].
  - injection Hr as ->. left. split; [reflexivity|]. split; [|reflexivity].
    destruct (Z_lt_ge_dec code_pt (Z.of_nat (length (tokens self)))) as [Hlt|Hge]; [|lia].
    destruct (getitem_inrange (tokens self) code_pt) as (t & _ & Hget); [lia|]. congruence.
  - discriminate.
  - injection Hr as ->.
    right. left. split; [reflexivity|]. split; [exact Hfuel|]. split; [|reflexivity].
    apply (getitem_Ok _ _ _ Hpc Hfetch).
  - destruct r0 as [pt|e0]; [discriminate|]. injection Hr as ->.
    destruct (Token_exec_raises t (tick c) e0 c' Hcur Hcells Hne Hexec)
      as [(-> & [(-> & x & data & Hin & Hx & ->)|(-> & x & data & Hin & ->)])|
          (-> & -> & v & Hv & [(-> & encodes & Hk & Henc)|(-> & Hk)])];
      simpl in *.
    + right. right. left. split; [reflexivity|]. split; [exact Hfetch|].
      exists x, data. auto.
    + right. right. right. left. split; [reflexivity|]. split; [exact Hfetch|].
      exists x, data. auto.
    + do 4 right. left. split; [reflexivity|]. split; [exact Hfetch|].
      split; [reflexivity|]. exists v, encodes.
      split; [exact Hv|]. split; [congruence|exact Henc].
    + do 5 right. split; [reflexivity|]. split; [exact Hfetch|].
      split; [reflexivity|congruence].
Qed.



Lemma byte_input_later (i i' : option stream) :
  byte_input i -> input_later i i' -> byte_input i'.
Proof.
  destruct i as [[d|d|d]|], i' as [[d'|d'|d']|]; simpl; try contradiction; auto.
  - intros H [n ->]. apply Forall_drop. exact H.
  - intros -> [n ->]. apply drop_nil.
Qed.

(** On a tape of at least one cell, with an input that yields bytes and a
    sink that takes every byte, a run that is over has halted on an
    [ExitToken], or run out of budget, with the budget, which was not
    negative, at zero, or fetched at an address off the end of the code:
    there is no other outcome. *)
Theorem run_outcomes
    (self : Code) (inp : option stream) (out : sink) (bs lim : Z) (gas : nat)
    (r : result unit) (c' : Context) :
  1 <= bs -> byte_input inp ->
  (forall v, 0 <= v < 256 -> sink_takes out v) ->
  Code_exec gas self (Context_init inp out bs lim) = Some (r, c') ->
  r = Ok tt \/
  (r = Raise TimeoutError /\ num_cycles_left c' = 0 /\ 0 <= lim) \/
  r = Raise IndexError.
Proof.
  intros Hbs Hinp Hsink Hrun.
  destruct (Code_exec_from_last self _ gas 0 _ r c' (reachable_start _ _) Hrun)
    as (pc1 & c1 & Hreach & [(-> & _)|(e & -> & Hiter)]); [left; reflexivity|].
  right.
  pose proof (reachable_input_later _ _ _ _ _ _ _ Hreach) as Hlater.
  pose proof (byte_input_later _ _ Hinp Hlater) as Hbytes.
  destruct (reachable_inv _ _ _ _ _ _ _ Hreach) as (_ & Hcells & _ & _).
  destruct (Code_exec_iter_raises _ _ _ _ _ _ _ _ _ Hbs Hreach Hiter)
    as [(-> & _)|[(-> & Hfuel & _ & ->)|[(_ & _ & x & d & Hin & Hx & _)|
        [(_ & _ & x & d & Hin & _)|[(_ & _ & _ & v & encodes & Hv & -> & Henc)|
        (_ & _ & _ & ->)]]]]].
  - right. reflexivity.
  - left. split; [reflexivity|]. split; [exact Hfuel|].
    apply reachable_iterate in Hreach as [n Hn].
    apply Code_iterate_fuel in Hn as [Hn _]. simpl in Hn. lia.
  - exfalso. rewrite Hin in Hbytes. simpl in Hbytes.
    apply Forall_cons in Hbytes as [Hx' _]. contradiction.
  - exfalso. rewrite Hin in Hbytes. simpl in Hbytes. discriminate.
  - exfalso. pose proof (Forall_lookup_1 _ _ _ _ Hcells Hv) as Hrange. simpl in Hrange.
    specialize (Hsink v Hrange). simpl in Hsink. congruence.
  - exfalso. exact (Hsink 0 ltac:(lia)).
Qed.

Lemma run_outcomes_witness :
  Ok tt = Ok tt \/
  (Ok tt = Raise TimeoutError /\
   num_cycles_left {| buffer := [255]; ptr := 0; input_file := None;
                      output_kind := text_sink (fun _ => true); output_file := [255];
                      num_cycles_left := 3 |} = 0 /\ 0 <= 5) \/
  @Ok unit tt = Raise IndexError.
Proof.
  apply (run_outcomes (mkCode [MinusToken; PrintToken; ExitToken]) None
           (text_sink (fun _ => true)) 1 5 3 (Ok tt)
           {| buffer := [255]; ptr := 0; input_file := None;
              output_kind := text_sink (fun _ => true); output_file := [255];
              num_cycles_left := 3 |}).
  - lia.
  - exact I.
  - intros v _. reflexivity.
  - reflexivity.
Defined.

Lemma getitem_Raise {A} (l : list A) (i : Z) (e : exn) :
  getitem l i = Raise e -> e = IndexError.
Proof. unfold getitem. destruct (index _ _); [destruct (_ !! _)|]; congruence. Qed.

Lemma setitem_Raise {A} (l : list A) (i : Z) (x : A) (e : exn) :
  setitem l i x = Raise e -> e = IndexError.
Proof. unfold setitem. destruct (index _ _); congruence. Qed.

Lemma bytes_Raise (xs : list Z) (e : exn) : bytes xs = Raise e -> e = ValueError.
Proof. unfold bytes. destruct (forallb _ _); congruence. Qed.

Lemma ord_Raise (b : list Z) (e : exn) : ord b = Raise e -> e = TypeError.
Proof. destruct b as [|x [|y b]]; simpl; congruence. Qed.

Ltac name_exn :=
  repeat match goal with
         | H : getitem _ _ = Raise _ |- _ => apply getitem_Raise in H
         | H : setitem _ _ _ = Raise _ |- _ => apply setitem_Raise in H
         | H : bytes _ = Raise _ |- _ => apply bytes_Raise in H
         | H : ord _ = Raise _ |- _ => apply ord_Raise in H
         end;
  subst.

(** The exceptions an instruction can raise, on any tape. *)
Lemma Token_exec_exn (token : Token) (c : Context) (e : exn) (c' : Context) :
  token <> ExitToken ->
  Token_exec token c = (Raise e, c') ->
  e = IndexError \/ e = ZeroDivisionError \/ e = ValueError \/ e = TypeError \/
  e = UnicodeEncodeError.
Proof.
  intros Hne H.
  destruct token; try contradiction;
    unfold Token_exec, bind, ret, lift, Context_current_value, Context_set_current_value,
      Context_pointer, Context_set_pointer, Context_write, Context_read, mod_ in H;
    repeat match goal with
           | H : context [match ?x with _ => _ end] |- _ => destruct x eqn:?
           end;
    inv_pair; name_exn; auto 7.
Qed.

(** The exceptions a run can end in, on any tape and with any input. *)
Lemma Code_exec_exn (self : Code) (inp : option stream) (out : sink) (bs lim : Z) (gas : nat)
    (e : exn) (c' : Context) :
  Code_exec gas self (Context_init inp out bs lim) = Some (Raise e, c') ->
  (e = TimeoutError /\ 0 <= lim /\ num_cycles_left c' = 0) \/
  e = IndexError \/ e = ZeroDivisionError \/ e = ValueError \/ e = TypeError \/
  e = UnicodeEncodeError.
Proof.
  intros Hrun.
  destruct (Code_exec_from_last self _ gas 0 _ _ c' (reachable_start _ _) Hrun)
    as (pc1 & c1 & Hreach & [(Hr & _)|(e' & Hr & Hiter)]); [discriminate|].
  injection Hr as <-.
  apply Code_exec_iter_cases in Hiter
    as [(_ & Hr & _)|[(_ & Hr & _)|[(t & _ & _ & Hfuel & Hr & ->)|
        (t & r0 & _ & Hne & _ & Hexec & Hr)]]].
  - injection Hr as ->. auto.
  - discriminate.
  - injection Hr as ->. left. split; [reflexivity|].
    apply reachable_iterate in Hreach as [n Hn].
    apply Code_iterate_fuel in Hn as [Hn _]. simpl in Hn. lia.
  - destruct r0 as [pt|e0]; [discriminate|]. injection Hr as ->.
    right. exact (Token_exec_exn _ _ _ _ Hne Hexec).
Qed.

(** A run that ends in [TimeoutError] was given a budget that is not
    negative and has spent it to the last unit; so a run on a negative
    budget never ends in [TimeoutError]. *)
Theorem timeout_means_budget_spent
    (self : Code) (inp : option stream) (out : sink) (bs lim : Z) (gas : nat) (c' : Context) :
  Code_exec gas self (Context_init inp out bs lim) = Some (Raise TimeoutError, c') ->
  0 <= lim /\ num_cycles_left c' = 0.
Proof.
  intros Hrun.
  destruct (Code_exec_exn _ _ _ _ _ _ _ _ Hrun) as [(_ & H)|[H|[H|[H|[H|H]]]]];
    [exact H|discriminate..].
Qed.

Lemma timeout_means_budget_spent_witness :
  0 <= 1 /\
  num_cycles_left {| buffer := [1]; ptr := 0; input_file := None;
                     output_kind := bytes_sink; output_file := [];
                     num_cycles_left := 0 |} = 0.
Proof.
  apply (timeout_means_budget_spent (mkCode [PlusToken; PlusToken; ExitToken]) None bytes_sink 1 1 3).
  reflexivity.
Defined.

(** [éxec] ends in [SyntaxError] exactly when some byte of the source is
    outside the instruction table, and then nothing has been executed:
    the context is as it was built, whatever the bound on the
    iterations. *)
Theorem exec_SyntaxError_iff_byte_outside_table
    (gas : nat) (source_code : list byte) (inp : option stream) (out : sink) (bs lim : Z) :
  (Exists (fun b => table b = None) source_code ->
   éxec gas source_code inp out bs lim = Some (Raise SyntaxError, Context_init inp out bs lim)) /\
  (forall c',
      éxec gas source_code inp out bs lim = Some (Raise SyntaxError, c') ->
      Exists (fun b => table b = None) source_code).
Proof.
  unfold éxec.
  destruct (table_scan source_code)
    as [[toks Htoks]|(good & toks & b & post & -> & Hgood & Hb)].
  - rewrite (Code_parse_all_in_table _ _ Htoks). split.
    + intros Hex. exfalso. apply Exists_exists in Hex as (b & Hin & Hb).
      apply list_elem_of_lookup in Hin as [i Hi].
      destruct (Forall2_lookup_l _ _ _ _ _ Htoks Hi) as (t & _ & Ht). congruence.
    + intros c' Hrun. exfalso.
      destruct (Code_exec_exn _ _ _ _ _ _ _ _ Hrun) as [(H & _)|[H|[H|[H|[H|H]]]]]; discriminate.
  - rewrite (Code_parse_first_outside _ _ _ _ Hgood Hb). split.
    + intros _. reflexivity.
    + intros c' _. apply Exists_app. right. apply Exists_cons_hd. exact Hb.
Qed.

(** ** The budget only cuts runs short *)

Lemma set_num_cycles_left_same (k : Z) (c : Context) :
  k = num_cycles_left c -> set_num_cycles_left k c = c.
Proof. intros ->. destruct c; reflexivity. Qed.

Lemma Code_exec_from_budget (self : Code) (gas : nat) :
  forall (code_pt : Z) (c : Context) (r : result unit) (c' : Context) (k : Z),
    Code_exec_from gas self code_pt c = Some (r, c') ->
    r <> Raise TimeoutError ->
    k < 0 \/ num_cycles_left c - num_cycles_left c' <= k ->
    Code_exec_from gas self code_pt (set_num_cycles_left k c)
    = Some (r, set_num_cycles_left (k - (num_cycles_left c - num_cycles_left c')) c').
Proof.
  induction gas as [|gas IH]; intros code_pt c r c' k Hrun Hr Hk; [discriminate|].
  simpl in Hrun |- *.
  destruct (Code_exec_iter self code_pt c) as [r1 c1] eqn:Hiter.
  rewrite Code_exec_iter_unfold.
  apply Code_exec_iter_cases in Hiter
    as [(Hfetch & -> & ->)|[(Hfetch & -> & ->)|[(t & Hfetch & _ & _ & -> & ->)|
        (t & r0 & Hfetch & Hne & Hfuel & Hexec & ->)]]];
    simpl tokens; rewrite Hfetch.
  - injection Hrun as <- <-. do 3 f_equal. lia.
  - injection Hrun as <- <-. simpl. do 3 f_equal. lia.
  - injection Hrun as <- <-. contradiction.
  - destruct (decide (t = ExitToken)); [contradiction|].
    pose proof (Token_exec_frame _ _ _ _ Hexec) as (Hf1 & _). simpl in Hf1.
    assert (Hrest : num_cycles_left c' <= num_cycles_left c1).
    { destruct r0 as [pt|e0].
      - apply Code_exec_from_fuel in Hrun. lia.
      - injection Hrun as <- <-. lia. }
    simpl num_cycles_left.
    destruct (k =? 0) eqn:Ek; [lia|].
    change (tick (set_num_cycles_left k c))
      with (set_num_cycles_left (k - 1) (tick c)).
    rewrite (Token_exec_budget t (k - 1) (tick c)), Hexec. simpl.
    destruct r0 as [pt|e0].
    + rewrite (IH _ _ _ _ (k - 1) Hrun Hr) by lia. do 3 f_equal. lia.
    + injection Hrun as <- <-. do 3 f_equal. lia.
Qed.

(** The budget does nothing to a run but cut it short: a run that ends
    otherwise than in [TimeoutError] ends in the same way, with the same
    tape, cursor, input and output, on every budget that is negative or
    at least the number of instructions the run dispatched; only the
    budget left over differs. *)
Theorem budget_only_cuts_runs_short
    (self : Code) (inp : option stream) (out : sink) (bs lim lim' : Z) (gas : nat)
    (r : result unit) (c' : Context) :
  Code_exec gas self (Context_init inp out bs lim) = Some (r, c') ->
  r <> Raise TimeoutError ->
  lim' < 0 \/ lim - num_cycles_left c' <= lim' ->
  Code_exec gas self (Context_init inp out bs lim')
  = Some (r, set_num_cycles_left (lim' - (lim - num_cycles_left c')) c').
Proof.
  intros Hrun Hr Hk.
  exact (Code_exec_from_budget self gas 0 (Context_init inp out bs lim) r c' lim' Hrun Hr Hk).
Qed.

Lemma budget_only_cuts_runs_short_witness :
  Code_exec 3 (mkCode [PlusToken; PrintToken; ExitToken]) (Context_init None bytes_sink 1 2)
  = Some (Ok tt,
          set_num_cycles_left (2 - (7 - 5))
            {| buffer := [1]; ptr := 0; input_file := None;
               output_kind := bytes_sink; output_file := [1];
               num_cycles_left := 5 |}).
Proof.
  apply (budget_only_cuts_runs_short (mkCode [PlusToken; PrintToken; ExitToken])
           None bytes_sink 1 7 2 3 (Ok tt)
           {| buffer := [1]; ptr := 0; input_file := None;
              output_kind := bytes_sink; output_file := [1];
              num_cycles_left := 5 |}).
  - reflexivity.
  - discriminate.
  - right. simpl. lia.
Defined.

(** ** Programs without jumps *)

Lemma prints_cons (op : Token) (ops : list Token) :
  prints (op :: ops) = ((if decide (op = PrintToken) then 1 else 0) + prints ops)%nat.
Proof.
  unfold prints. rewrite filter_cons.
  destruct (decide (op = PrintToken)); reflexivity.
Qed.

Lemma PrintToken_exec_Ok (c : Context) (pt : Z) (c' : Context) :
  Token_exec PrintToken c = (Ok pt, c') ->
  exists v, getitem (buffer c) (ptr c) = Ok v /\ output_file c' = output_file c ++ [v].
Proof.
  intros H. crunch; unfold bytes in *; simpl in *;
    match goal with
    | H : (if ?b then _ else _) = Ok _ |- _ => destruct b eqn:E; [|discriminate]
    end;
    inv_pair; eexists; split; reflexivity.
Qed.

Lemma straight_exec (token : Token) (c : Context) :
  straight token -> cursor_ok c -> cells_ok c ->
  (forall v, 0 <= v < 256 -> sink_takes (output_kind c) v) ->
  exists c',
    Token_exec token c = (Ok (-1), c') /\
    cursor_ok c' /\ cells_ok c' /\
    output_kind c' = output_kind c /\
    num_cycles_left c' = num_cycles_left c /\
    length (output_file c')
    = ((if decide (token = PrintToken) then 1 else 0) + length (output_file c))%nat.
Proof.
  intros Hs Hcur Hcells Hsink.
  destruct (Token_exec_returns token c Hcur Hcells) as [c' Hexec].
  { destruct Hs as [->|[->|[->|[->| ->]]]]; discriminate. }
  { destruct Hs as [->|[->|[->|[->| ->]]]]; discriminate. }
  { destruct Hs as [->|[->|[->|[->| ->]]]]; discriminate. }
  { intros _ v Hv. apply Hsink. exact (Forall_lookup_1 _ _ _ _ Hcells Hv). }
  exists c'. split; [exact Hexec|].
  destruct (Token_exec_frame _ _ _ _ Hexec) as (Hfuel & _ & Hc1 & Hc2).
  split; [auto|]. split; [auto|].
  split; [exact (Token_exec_output_kind _ _ _ _ Hexec)|]. split; [exact Hfuel|].
  destruct (decide (token = PrintToken)) as [->|Hnp].
  - destruct (PrintToken_exec_Ok _ _ _ Hexec) as (v & _ & Hout).
    rewrite Hout, length_app. simpl. lia.
  - destruct (Token_exec_output _ _ _ _ Hexec) as [Hout|(-> & _)]; [|contradiction].
    rewrite Hout. reflexivity.
Qed.

(** A stretch of instructions without [GoToToken], [ReadToken] or
    [ExitToken], run by the loop from its first instruction on a tape
    with the cursor on a cell, is run through to its end when the budget
    is negative or at least its length. *)
Lemma straight_run (ops : list Token) :
  forall (pre rest : list Token) (c : Context),
    Forall straight ops ->
    cursor_ok c -> cells_ok c ->
    (forall v, 0 <= v < 256 -> sink_takes (output_kind c) v) ->
    num_cycles_left c < 0 \/ Z.of_nat (length ops) <= num_cycles_left c ->
    exists c',
      Code_iterate (length ops) (mkCode (pre ++ ops ++ rest)) (Z.of_nat (length pre)) c
      = Some (Z.of_nat (length pre) + Z.of_nat (length ops), c') /\
      cursor_ok c' /\ cells_ok c' /\
      num_cycles_left c' = num_cycles_left c - Z.of_nat (length ops) /\
      length (output_file c') = (prints ops + length (output_file c))%nat.
Proof.
  induction ops as [|op ops IH]; intros pre rest c Hops Hcur Hcells Hsink Hfuel.
  - exists c. simpl. rewrite Z.add_0_r, Z.sub_0_r. auto.
  - apply Forall_cons in Hops as [Hop Hops]. simpl length in *.
    set (self := mkCode (pre ++ (op :: ops) ++ rest)).
    destruct (straight_exec op (tick c) Hop Hcur Hcells Hsink)
      as (c1 & Hexec & Hcur1 & Hcells1 & Hkind1 & Hfuel1 & Hout1).
    simpl in Hkind1, Hfuel1, Hout1.
    assert (Hsink1 : forall v, 0 <= v < 256 -> sink_takes (output_kind c1) v)
      by (rewrite Hkind1; exact Hsink).
    assert (Hstep : Code_exec_iter self (Z.of_nat (length pre)) c
                    = (Ok (Some (Z.of_nat (length pre) + 1)), c1)).
    { rewrite Code_exec_iter_unfold.
      assert (Hfetch : getitem (tokens self) (Z.of_nat (length pre)) = Ok op).
      { apply getitem_lookup; [lia|]. rewrite Nat2Z.id. simpl.
        apply list_lookup_middle. reflexivity. }
      rewrite Hfetch.
      destruct (decide (op = ExitToken)) as [->|_].
      { destruct Hop as [H|[H|[H|[H|H]]]]; discriminate. }
      destruct (num_cycles_left c =? 0) eqn:E; [lia|].
      rewrite Hexec. reflexivity. }
    destruct (IH (pre ++ [op]) rest c1 Hops Hcur1 Hcells1 Hsink1)
      as (c' & Hrun & Hcur' & Hcells' & Hfuel' & Hout'); [lia|].
    exists c'.
    rewrite <- app_assoc in Hrun. simpl app in Hrun.
    rewrite length_app in Hrun. simpl length in Hrun.
    replace (Z.of_nat (length pre + 1)) with (Z.of_nat (length pre) + 1) in Hrun by lia.
    change (Code_iterate (S (length ops)) self (Z.of_nat (length pre)) c)
      with (match Code_exec_iter self (Z.of_nat (length pre)) c with
            | (Ok (Some code_pt'), c') => Code_iterate (length ops) self code_pt' c'
            | _ => None
            end).
    rewrite Hstep.
    change (mkCode (pre ++ op :: ops ++ rest)) with self in Hrun. rewrite Hrun.
    split; [f_equal; f_equal; lia|]. split; [exact Hcur'|]. split; [exact Hcells'|].
    split; [lia|]. rewrite Hout', Hout1, prints_cons. lia.
Qed.

(** A program that begins with a stretch of instructions without
    [GoToToken] or [ReadToken] followed by an [ExitToken], run on a tape
    of at least one cell with a sink that takes every byte: on a budget that is negative or at least the
    length of the stretch it halts after one iteration per instruction
    and one more for the [ExitToken], having spent one unit of budget per
    instruction and written one byte per [PrintToken]; on a budget
    [0 <= lim] below the length of the stretch it ends in [TimeoutError]
    after exactly [lim] instructions, having written one byte per
    [PrintToken] among them. *)
Theorem straight_program_halts_or_times_out
    (ops rest : list Token) (inp : option stream) (out : sink) (bs lim : Z) :
  Forall straight ops ->
  1 <= bs ->
  (forall v, 0 <= v < 256 -> sink_takes out v) ->
  (lim < 0 \/ Z.of_nat (length ops) <= lim ->
   exists c',
     Code_exec (S (length ops)) (mkCode (ops ++ ExitToken :: rest)) (Context_init inp out bs lim)
     = Some (Ok tt, c') /\
     num_cycles_left c' = lim - Z.of_nat (length ops) /\
     length (output_file c') = prints ops) /\
  (0 <= lim < Z.of_nat (length ops) ->
   exists c',
     Code_exec (S (Z.to_nat lim)) (mkCode (ops ++ ExitToken :: rest)) (Context_init inp out bs lim)
     = Some (Raise TimeoutError, c') /\
     num_cycles_left c' = 0 /\
     length (output_file c') = prints (take (Z.to_nat lim) ops)).
Proof.
  intros Hops Hbs Hsink.
  assert (Hcur : cursor_ok (Context_init inp out bs lim)).
  { unfold cursor_ok. simpl. rewrite length_replicate. lia. }
  assert (Hcells : cells_ok (Context_init inp out bs lim)).
  { unfold cells_ok. simpl. apply Forall_replicate. lia. }
  split.
  - intros Hlim.
    destruct (straight_run ops [] (ExitToken :: rest) (Context_init inp out bs lim)
                Hops Hcur Hcells Hsink Hlim)
      as (c' & Hrun & _ & _ & Hfuel & Hout).
    simpl in Hrun, Hfuel, Hout. exists c'.
    split; [|split; [exact Hfuel|lia]].
    unfold Code_exec. replace (S (length ops)) with (length ops + 1)%nat by lia.
    change (Z.of_nat 0) with 0 in Hrun. rewrite Z.add_0_l in Hrun.
    rewrite (Code_exec_from_iterate _ _ _ _ _ _ 1 Hrun). cbn [Code_exec_from].
    rewrite Code_exec_iter_unfold.
    assert (Hfetch : getitem (ops ++ ExitToken :: rest) (Z.of_nat (length ops))
                     = Ok ExitToken).
    { apply getitem_lookup; [lia|]. rewrite Nat2Z.id.
      apply list_lookup_middle. reflexivity. }
    cbn [tokens]. rewrite Hfetch. reflexivity.
  - intros Hlim.
    set (n := Z.to_nat lim).
    destruct (drop n ops) as [|op ops2] eqn:Hdrop.
    { apply (f_equal length) in Hdrop. rewrite length_drop in Hdrop. simpl in Hdrop. lia. }
    assert (Hsplit : ops = take n ops ++ op :: ops2).
    { rewrite <- Hdrop. symmetry. apply take_drop. }
    assert (Hn : length (take n ops) = n) by (rewrite length_take; lia).
    assert (Hop : straight op).
    { rewrite Hsplit in Hops. apply Forall_app in Hops as [_ Hops].
      apply Forall_cons in Hops as [Hop _]. exact Hop. }
    destruct (straight_run (take n ops) [] (op :: ops2 ++ ExitToken :: rest)
                (Context_init inp out bs lim))
      as (c' & Hrun & _ & _ & Hfuel & Hout).
    { rewrite Hsplit in Hops. apply Forall_app in Hops as [H _]. exact H. }
    { exact Hcur. }
    { exact Hcells. }
    { exact Hsink. }
    { right. simpl. lia. }
    simpl in Hrun, Hfuel, Hout. change (Z.of_nat 0) with 0 in Hrun.
    rewrite Hn, Z.add_0_l in Hrun. rewrite Hn in Hfuel.
    assert (Hcode : ops ++ ExitToken :: rest
                    = take n ops ++ op :: ops2 ++ ExitToken :: rest).
    { rewrite Hsplit at 1. rewrite <- app_assoc. reflexivity. }
    exists c'. split; [|split; [lia|lia]].
    unfold Code_exec. rewrite Hcode.
    replace (S n) with (n + 1)%nat by lia.
    rewrite (Code_exec_from_iterate _ _ _ _ _ _ 1 Hrun). cbn [Code_exec_from].
    rewrite Code_exec_iter_unfold.
    assert (Hfetch : getitem (take n ops ++ op :: ops2 ++ ExitToken :: rest) (Z.of_nat n)
                     = Ok op).
    { apply getitem_lookup; [lia|]. rewrite Nat2Z.id.
      apply list_lookup_middle. symmetry. exact Hn. }
    cbn [tokens]. rewrite Hfetch.
    destruct (decide (op = ExitToken)) as [->|_].
    { destruct Hop as [H|[H|[H|[H|H]]]]; discriminate. }
    destruct (num_cycles_left c' =? 0) eqn:E; [reflexivity|lia].
Qed.

Lemma straight_program_halts_or_times_out_witness :
  exists c',
    Code_exec (S (length [PlusToken; PrintToken; ForwardToken]))
      (mkCode ([PlusToken; PrintToken; ForwardToken] ++ ExitToken :: []))
      (Context_init None bytes_sink 2 3)
    = Some (Ok tt, c') /\
    num_cycles_left c' = 3 - Z.of_nat (length [PlusToken; PrintToken; ForwardToken]) /\
    length (output_file c') = prints [PlusToken; PrintToken; ForwardToken].
Proof.
  refine (proj1 (straight_program_halts_or_times_out
                   [PlusToken; PrintToken; ForwardToken] [] None bytes_sink 2 3 _ _ _) _).
  - repeat (apply List.Forall_cons; [unfold straight; tauto|]). apply List.Forall_nil.
  - lia.
  - intros v _. exact I.
  - right. simpl. lia.
Defined.

(** ** The empty tape *)

(** On a tape without cells (a buffer size of zero or less) no instruction
    can be run: with budget left, a program whose first token is not an
    [ExitToken] ends at that token, in [ZeroDivisionError] when it moves
    the cursor and in [IndexError] when it touches the current cell; the
    budget is one lower, and a [ReadToken] has taken its byte from the
    input before it fails. *)
Theorem empty_tape_fails_at_first_instruction
    (self : Code) (inp : option stream) (out : sink) (bs lim : Z) (token : Token) (gas : nat) :
  bs <= 0 -> lim <> 0 ->
  getitem (tokens self) 0 = Ok token ->
  (token = ForwardToken \/ token = BackwardToken ->
   Code_exec (S gas) self (Context_init inp out bs lim)
   = Some (Raise ZeroDivisionError, tick (Context_init inp out bs lim))) /\
  (token = PlusToken \/ token = MinusToken \/ token = PrintToken \/ token = GoToToken ->
   Code_exec (S gas) self (Context_init inp out bs lim)
   = Some (Raise IndexError, tick (Context_init inp out bs lim))) /\
  (token = ReadToken -> inp = None ->
   Code_exec (S gas) self (Context_init inp out bs lim)
   = Some (Raise IndexError, tick (Context_init inp out bs lim))) /\
  (token = ReadToken -> forall x data, inp = Some (BinaryIO (x :: data)) ->
   Code_exec (S gas) self (Context_init inp out bs lim)
   = Some (Raise IndexError,
           set_input_file (Some (BinaryIO data)) (tick (Context_init inp out bs lim)))).
Proof.
  intros Hbs Hlim Hfetch.
  assert (Hc0 : Context_init inp out bs lim
                = {| buffer := []; ptr := 0; input_file := inp; output_kind := out; output_file := [];
                     num_cycles_left := lim |}).
  { unfold Context_init. replace (Z.to_nat bs) with 0%nat by lia. reflexivity. }
  assert (Hnz : (lim =? 0) = false) by lia.
  unfold Code_exec. cbn [Code_exec_from].
  rewrite Code_exec_iter_unfold, Hfetch, Hc0. cbn [num_cycles_left]. rewrite Hnz.
  split; [|split; [|split]].
  - intros [-> | ->]; reflexivity.
  - intros [->|[->|[-> | ->]]]; reflexivity.
  - intros -> ->. reflexivity.
  - intros -> x data ->. reflexivity.
Qed.

Lemma empty_tape_fails_at_first_instruction_witness :
  Code_exec (S 0) (mkCode [ForwardToken; ExitToken]) (Context_init None bytes_sink (-3) 5)
  = Some (Raise ZeroDivisionError, tick (Context_init None bytes_sink (-3) 5)).
Proof.
  refine (proj1 (empty_tape_fails_at_first_instruction
                   (mkCode [ForwardToken; ExitToken]) None bytes_sink (-3) 5 ForwardToken 0 _ _ _) _).
  - lia.
  - lia.
  - reflexivity.
  - left. reflexivity.
Defined.

(** ** Reading a byte *)

Lemma Code_exec_iter_read
    (self : Code) (inp : option stream) (out : sink) (bs lim : Z) (code_pt : Z) (c : Context) :
  1 <= bs ->
  reachable self (Context_init inp out bs lim) code_pt c ->
  getitem (tokens self) code_pt = Ok ReadToken ->
  num_cycles_left c <> 0 ->
  byte_input (input_file c) ->
  Code_exec_iter self code_pt c
  = (Ok (Some (code_pt + 1)),
     set_buffer (<[Z.to_nat (ptr c) := input_head (input_file c) mod 256]> (buffer c))
       (set_input_file (input_tail (input_file c)) (tick c))).
Proof.
  intros Hbs Hreach Hfetch Hfuel Hbytes.
  destruct (reachable_inv _ _ _ _ _ _ _ Hreach) as (_ & _ & _ & Hcur).
  specialize (Hcur Hbs).
  assert (Hnz : (num_cycles_left c =? 0) = false) by lia.
  rewrite Code_exec_iter_unfold, Hfetch, Hnz.
  destruct (decide (ReadToken = ExitToken)) as [Heq|_]; [discriminate|].
  unfold Token_exec, bind, lift, ret, Context_read, Context_set_current_value.
  destruct c as [buf p i o fuel]. unfold tick, cursor_ok in *. simpl in *.
  destruct i as [[d|d|d]|]; simpl in *; rewrite ?stream_read_one;
    try (destruct d as [|x d]); simpl in *;
    try discriminate;
    rewrite ?take_0, ?drop_0;
    try (apply Forall_cons in Hbytes as [Hx _];
         rewrite (bytes_singleton x Hx); simpl);
    rewrite setitem_inrange by exact Hcur; rewrite land_255; reflexivity.
Qed.

(** A dispatched [ReadToken], on a tape of at least one cell and with an
    input that yields bytes, stores the next byte of the input in the
    current cell, or 0 when the input is absent or has nothing left,
    takes that byte off the input, changes nothing else but the budget,
    and advances. *)
Theorem read_stores_next_byte_or_zero
    (self : Code) (inp : option stream) (out : sink) (bs lim : Z) (code_pt : Z) (c : Context) :
  1 <= bs ->
  reachable self (Context_init inp out bs lim) code_pt c ->
  getitem (tokens self) code_pt = Ok ReadToken ->
  num_cycles_left c <> 0 ->
  byte_input (input_file c) ->
  Code_exec_iter self code_pt c
  = (Ok (Some (code_pt + 1)),
     set_buffer (<[Z.to_nat (ptr c) := input_head (input_file c) mod 256]> (buffer c))
       (set_input_file (input_tail (input_file c)) (tick c))).
Proof.
  intros Hbs Hreach Hfetch Hfuel Hbytes.
  exact (Code_exec_iter_read self inp out bs lim code_pt c Hbs Hreach Hfetch Hfuel Hbytes).
Qed.

Lemma read_stores_next_byte_or_zero_witness :
  Code_exec_iter (mkCode [ReadToken; ExitToken]) 0 (Context_init (Some (BinaryIO [65; 66])) bytes_sink 2 5)
  = (Ok (Some (0 + 1)),
     set_buffer (<[Z.to_nat (ptr (Context_init (Some (BinaryIO [65; 66])) bytes_sink 2 5)) :=
                   input_head (input_file (Context_init (Some (BinaryIO [65; 66])) bytes_sink 2 5))
                   mod 256]>
                   (buffer (Context_init (Some (BinaryIO [65; 66])) bytes_sink 2 5)))
       (set_input_file (input_tail (input_file (Context_init (Some (BinaryIO [65; 66])) bytes_sink 2 5)))
          (tick (Context_init (Some (BinaryIO [65; 66])) bytes_sink 2 5)))).
Proof.
  apply (read_stores_next_byte_or_zero (mkCode [ReadToken; ExitToken])
           (Some (BinaryIO [65; 66])) bytes_sink 2 5 0 (Context_init (Some (BinaryIO [65; 66])) bytes_sink 2 5)).
  - lia.
  - apply reachable_start.
  - reflexivity.
  - simpl. lia.
  - exact I.
Defined.

(** ** Instructions that undo each other *)

Lemma move_exec (token : Token) (c : Context) :
  token = ForwardToken \/ token = BackwardToken -> cursor_ok c ->
  Token_exec token c
  = (Ok (-1),
     set_ptr ((ptr c + (if decide (token = ForwardToken) then 1 else -1))
              mod Z.of_nat (length (buffer c))) c).
Proof.
  intros Htok Hcur.
  assert (Hlen : (Z.of_nat (length (buffer c)) =? 0) = false)
    by (unfold cursor_ok in Hcur; lia).
  destruct Htok as [-> | ->];
    unfold Token_exec, bind, ret, Context_pointer, Context_set_pointer, mod_;
    rewrite Hlen; reflexivity.
Qed.

Lemma Code_exec_iter_dispatch (self : Code) (code_pt : Z) (c : Context) (token : Token)
    (c' : Context) :
  getitem (tokens self) code_pt = Ok token ->
  token <> ExitToken -> num_cycles_left c <> 0 ->
  Token_exec token (tick c) = (Ok (-1), c') ->
  Code_exec_iter self code_pt c = (Ok (Some (code_pt + 1)), c').
Proof.
  intros Hfetch Hne Hfuel Hexec.
  rewrite Code_exec_iter_unfold, Hfetch, Hexec.
  destruct (decide (token = ExitToken)); [contradiction|].
  destruct (num_cycles_left c =? 0) eqn:E; [lia|reflexivity].
Qed.

(** The pairs [+-], [-+], [><] and [<>] cancel: run one after the other
    from a state of a run on a tape of at least one cell, they leave the
    tape, the cursor, the input and the sink exactly as they were; only
    the budget is two lower. *)
Theorem inverse_instructions_cancel
    (self : Code) (inp : option stream) (out : sink) (bs lim : Z)
    (code_pt : Z) (c : Context) (t1 t2 : Token) :
  1 <= bs ->
  reachable self (Context_init inp out bs lim) code_pt c ->
  getitem (tokens self) code_pt = Ok t1 ->
  getitem (tokens self) (code_pt + 1) = Ok t2 ->
  inverse_pair t1 t2 ->
  num_cycles_left c <> 0 -> num_cycles_left c <> 1 ->
  Code_iterate 2 self code_pt c
  = Some (code_pt + 2, set_num_cycles_left (num_cycles_left c - 2) c).
Proof.
  intros Hbs Hreach Hf1 Hf2 Hpair Hn0 Hn1.
  destruct (reachable_inv _ _ _ _ _ _ _ Hreach) as (_ & Hcells & _ & Hcur).
  specialize (Hcur Hbs).
  destruct (getitem_inrange (buffer c) (ptr c) Hcur) as (v & Hv & _).
  pose proof (Forall_lookup_1 _ _ _ _ Hcells Hv) as Hrange. simpl in Hrange.
  assert (Hplusminus :
            forall t1 t2, plus_or_minus t1 -> plus_or_minus t2 -> delta t1 + delta t2 = 0 ->
                          getitem (tokens self) code_pt = Ok t1 ->
                          getitem (tokens self) (code_pt + 1) = Ok t2 ->
                          Code_iterate 2 self code_pt c
                          = Some (code_pt + 2,
                                  set_num_cycles_left (num_cycles_left c - 2) c)).
  { clear t1 t2 Hf1 Hf2 Hpair. intros t1 t2 Ht1 Ht2 Hd Hf1 Hf2.
    pose proof (plus_minus_exec t1 (tick c) v Ht1 Hcur Hv) as He1. simpl in He1.
    set (c1 := set_buffer (<[Z.to_nat (ptr c) := (v + delta t1) mod 256]> (buffer c))
                 (tick c)) in *.
    assert (Hcur1 : cursor_ok c1).
    { unfold cursor_ok, c1. simpl. rewrite length_insert. exact Hcur. }
    assert (Hv1 : buffer c1 !! Z.to_nat (ptr c1) = Some ((v + delta t1) mod 256)).
    { unfold c1. simpl. apply list_lookup_insert_eq. unfold cursor_ok in Hcur. lia. }
    pose proof (plus_minus_exec t2 (tick c1) _ Ht2 Hcur1 Hv1) as He2.
    assert (Hs1 : Code_exec_iter self code_pt c = (Ok (Some (code_pt + 1)), c1)).
    { apply (Code_exec_iter_dispatch self code_pt c t1 c1 Hf1); try assumption.
      destruct Ht1 as [-> | ->]; discriminate. }
    assert (Hs2 : Code_exec_iter self (code_pt + 1) c1 = (Ok (Some (code_pt + 1 + 1)), _))
      by (apply (Code_exec_iter_dispatch self (code_pt + 1) c1 t2 _ Hf2);
          [destruct Ht2 as [-> | ->]; discriminate|unfold c1; simpl; lia|exact He2]).
    cbn [Code_iterate]. rewrite Hs1, Hs2.
    f_equal. f_equal; [lia|].
    unfold c1, tick, set_buffer, set_num_cycles_left. simpl.
    rewrite list_insert_insert_eq.
    rewrite Z.add_mod_idemp_l by lia.
    replace (v + delta t1 + delta t2) with v by lia.
    rewrite Z.mod_small by lia. rewrite (list_insert_id _ _ _ Hv).
    destruct c; simpl. f_equal. lia. }
  assert (Hmoves :
            forall t1 t2 (d : Z),
              (t1 = ForwardToken /\ t2 = BackwardToken /\ d = 1) \/
              (t1 = BackwardToken /\ t2 = ForwardToken /\ d = -1) ->
              getitem (tokens self) code_pt = Ok t1 ->
              getitem (tokens self) (code_pt + 1) = Ok t2 ->
              Code_iterate 2 self code_pt c
              = Some (code_pt + 2, set_num_cycles_left (num_cycles_left c - 2) c)).
  { clear t1 t2 Hf1 Hf2 Hpair. intros t1 t2 d Hts Hf1 Hf2.
    assert (Hm1 : t1 = ForwardToken \/ t1 = BackwardToken)
      by (destruct Hts as [(-> & _)|(-> & _)]; auto).
    assert (Hm2 : t2 = ForwardToken \/ t2 = BackwardToken)
      by (destruct Hts as [(_ & -> & _)|(_ & -> & _)]; auto).
    pose proof (move_exec t1 (tick c) Hm1 Hcur) as He1. simpl in He1.
    set (len := Z.of_nat (length (buffer c))) in *.
    set (d1 := if decide (t1 = ForwardToken) then 1 else -1) in *.
    set (c1 := set_ptr ((ptr c + d1) mod len) (tick c)) in *.
    assert (Hlen : 0 < len) by (unfold cursor_ok in Hcur; lia).
    assert (Hcur1 : cursor_ok c1).
    { unfold cursor_ok, c1. simpl. apply Z.mod_pos_bound. exact Hlen. }
    pose proof (move_exec t2 (tick c1) Hm2 Hcur1) as He2. simpl in He2.
    fold len in He2.
    set (d2 := if decide (t2 = ForwardToken) then 1 else -1) in *.
    assert (Hd : d1 + d2 = 0).
    { unfold d1, d2. destruct Hts as [(-> & -> & _)|(-> & -> & _)];
        repeat (destruct (decide _); try discriminate; try congruence); lia. }
    assert (Hs1 : Code_exec_iter self code_pt c = (Ok (Some (code_pt + 1)), c1)).
    { apply (Code_exec_iter_dispatch self code_pt c t1 c1 Hf1); try assumption.
      destruct Hm1 as [-> | ->]; discriminate. }
    assert (Hs2 : Code_exec_iter self (code_pt + 1) c1 = (Ok (Some (code_pt + 1 + 1)), _))
      by (apply (Code_exec_iter_dispatch self (code_pt + 1) c1 t2 _ Hf2);
          [destruct Hm2 as [-> | ->]; discriminate|unfold c1; simpl; lia|exact He2]).
    cbn [Code_iterate]. rewrite Hs1, Hs2.
    f_equal. f_equal; [lia|].
    rewrite Z.add_mod_idemp_l by lia.
    replace (ptr c + d1 + d2) with (ptr c) by lia.
    unfold cursor_ok in Hcur. fold len in Hcur. rewrite Z.mod_small by lia.
    unfold c1, tick, set_ptr, set_num_cycles_left. simpl.
    destruct c; simpl. f_equal. lia. }
  destruct Hpair as [(-> & ->)|[(-> & ->)|[(-> & ->)|(-> & ->)]]].
  - apply (Hplusminus PlusToken MinusToken); unfold plus_or_minus; auto.
  - apply (Hplusminus MinusToken PlusToken); unfold plus_or_minus; auto.
  - apply (Hmoves ForwardToken BackwardToken 1); auto.
  - apply (Hmoves BackwardToken ForwardToken (-1)); auto.
Qed.

Lemma inverse_instructions_cancel_witness :
  Code_iterate 2 (mkCode [BackwardToken; ForwardToken; ExitToken]) 0 (Context_init None bytes_sink 3 5)
  = Some (0 + 2,
          set_num_cycles_left (num_cycles_left (Context_init None bytes_sink 3 5) - 2)
            (Context_init None bytes_sink 3 5)).
Proof.
  apply (inverse_instructions_cancel (mkCode [BackwardToken; ForwardToken; ExitToken])
           None bytes_sink 3 5 0 (Context_init None bytes_sink 3 5) BackwardToken ForwardToken).
  - lia.
  - apply reachable_start.
  - reflexivity.
  - reflexivity.
  - unfold inverse_pair. tauto.
  - simpl. lia.
  - simpl. lia.
Defined.

(** ** Printing *)

(** A token name followed by anything is never another token name
    followed by anything: no name begins another. *)
Lemma Token_repr_prefix_free (t1 t2 : Token) (r1 r2 : String.string) :
  String.append (Token_repr t1) r1 = String.append (Token_repr t2) r2 ->
  t1 = t2 /\ r1 = r2.
Proof.
  destruct t1, t2; simpl; intros H; try discriminate;
    injection H as H; split; (reflexivity || exact H).
Qed.

Lemma string_append_assoc (a b c : String.string) :
  String.append (String.append a b) c = String.append a (String.append b c).
Proof. induction a as [|x a IH]; simpl; [reflexivity|]. rewrite IH. reflexivity. Qed.

Lemma Token_repr_not_closing (t : Token) (r : String.string) :
  String.append (Token_repr t) r <> ")"%string.
Proof. destruct t; discriminate. Qed.

Lemma tuple_repr_rest_injective (l1 : list Token) :
  forall l2,
    String.append (tuple_repr_rest l1) ")" = String.append (tuple_repr_rest l2) ")" ->
    l1 = l2.
Proof.
  induction l1 as [|t1 l1 IH]; intros [|t2 l2] H.
  - reflexivity.
  - discriminate.
  - discriminate.
  - simpl in H. injection H as H.
    rewrite !string_append_assoc in H.
    apply Token_repr_prefix_free in H as [-> H]. f_equal. exact (IH _ H).
Qed.

Lemma tuple_repr_injective (l1 l2 : list Token) :
  tuple_repr l1 = tuple_repr l2 -> l1 = l2.
Proof.
  destruct l1 as [|t1 [|t1' l1]], l2 as [|t2 [|t2' l2]]; simpl; intros H;
    try reflexivity; try injection H as H;
    try (symmetry in H; apply Token_repr_not_closing in H; contradiction);
    try (apply Token_repr_not_closing in H; contradiction);
    try (apply Token_repr_prefix_free in H as [-> H]).
  all: try reflexivity; try discriminate.
  change (String.append (tuple_repr_rest (t1' :: l1)) ")"
          = String.append (tuple_repr_rest (t2' :: l2)) ")") in H.
  apply tuple_repr_rest_injective in H. congruence.
Qed.

(** The printed form of a code tells the code: [Code.__str__] gives
    different strings for different token sequences, a token prints as the
    name of its class, and [__repr__] prints what [__str__] prints. *)
Theorem Code_str_injective (self1 self2 : Code) :
  (Code_str self1 = Code_str self2 -> self1 = self2) /\
  Code_repr self1 = Code_str self1 /\
  (forall t1 t2 : Token, Token_str t1 = Token_str t2 -> t1 = t2) /\
  (forall t : Token, Token_repr t = Token_str t).
Proof.
  split; [|split; [reflexivity|split]].
  - unfold Code_str. simpl. intros H. injection H as H.
    apply tuple_repr_injective in H.
    destruct self1, self2. simpl in H. congruence.
  - intros t1 t2 H. destruct t1, t2; simpl in H; congruence.
  - intros t. destruct t; reflexivity.
Qed.

Example Code_str_pair :
  Code_str (mkCode [PlusToken; ExitToken]) = "Code: (PlusToken, ExitToken)"%string.
Proof. reflexivity. Qed.

Example Code_str_single :
  Code_str (mkCode [ExitToken]) = "Code: (ExitToken,)"%string.
Proof. reflexivity. Qed.

Example Code_str_empty : Code_str (mkCode []) = "Code: ()"%string.
Proof. reflexivity. Qed.

(** ** Moving the cursor and echoing the input *)

(** A stretch of [ForwardToken]s and [BackwardToken]s, run by the loop
    from its first instruction, ends on the instruction after it with the
    cursor moved by the net shift modulo the capacity and nothing else
    changed but the budget. *)
Lemma moves_run (ops : list Token) :
  forall (pre rest : list Token) (c : Context),
    Forall forward_or_backward ops ->
    cursor_ok c ->
    num_cycles_left c < 0 \/ Z.of_nat (length ops) <= num_cycles_left c ->
    Code_iterate (length ops) (mkCode (pre ++ ops ++ rest)) (Z.of_nat (length pre)) c
    = Some (Z.of_nat (length pre) + Z.of_nat (length ops),
            set_ptr ((ptr c + net_shift ops) mod Z.of_nat (length (buffer c)))
              (set_num_cycles_left (num_cycles_left c - Z.of_nat (length ops)) c)).
Proof.
  induction ops as [|op ops IH]; intros pre rest c Hops Hcur Hfuel.
  - simpl. rewrite !Z.add_0_r, Z.sub_0_r.
    unfold cursor_ok in Hcur. rewrite Z.mod_small by lia.
    destruct c; reflexivity.
  - apply Forall_cons in Hops as [Hop Hops]. simpl length in *.
    set (self := mkCode (pre ++ (op :: ops) ++ rest)).
    set (len := Z.of_nat (length (buffer c))).
    assert (Hlen : 0 < len) by (unfold cursor_ok in Hcur; lia).
    assert (Hshift : (if decide (op = ForwardToken) then 1 else -1) = shift op).
    { destruct Hop as [-> | ->]; reflexivity. }
    pose proof (move_exec op (tick c) Hop Hcur) as Hexec. simpl in Hexec.
    rewrite Hshift in Hexec. fold len in Hexec.
    set (c1 := set_ptr ((ptr c + shift op) mod len) (tick c)) in *.
    assert (Hstep : Code_exec_iter self (Z.of_nat (length pre)) c
                    = (Ok (Some (Z.of_nat (length pre) + 1)), c1)).
    { apply (Code_exec_iter_dispatch self _ c op c1).
      - apply getitem_lookup; [lia|]. rewrite Nat2Z.id. simpl.
        apply list_lookup_middle. reflexivity.
      - destruct Hop as [-> | ->]; discriminate.
      - lia.
      - exact Hexec. }
    assert (Hcur1 : cursor_ok c1).
    { unfold cursor_ok, c1. simpl. apply Z.mod_pos_bound. exact Hlen. }
    specialize (IH (pre ++ [op]) rest c1 Hops Hcur1).
    rewrite <- app_assoc in IH. simpl app in IH.
    rewrite length_app in IH. simpl length in IH.
    replace (Z.of_nat (length pre + 1)) with (Z.of_nat (length pre) + 1) in IH by lia.
    change (Code_iterate (S (length ops)) self (Z.of_nat (length pre)) c)
      with (match Code_exec_iter self (Z.of_nat (length pre)) c with
            | (Ok (Some code_pt'), c') => Code_iterate (length ops) self code_pt' c'
            | _ => None
            end).
    rewrite Hstep.
    change (mkCode (pre ++ op :: ops ++ rest)) with self in IH.
    rewrite IH by (unfold c1; simpl; lia).
    unfold c1, tick, set_ptr, set_num_cycles_left. simpl. fold len.
    rewrite Z.add_mod_idemp_l by lia.
    f_equal. f_equal; [lia|]. f_equal; [f_equal; lia|lia].
Qed.

(** The cursor after a stretch of [>] and [<] run from a state of a run on
    a tape of at least one cell is the cursor before it plus the number of
    [>] less the number of [<], modulo the capacity; the tape, the input
    and the sink are untouched, and one unit of budget is spent per
    instruction.  In particular as many [>] as the tape has cells bring
    the cursor back. *)
Theorem cursor_moves_by_net_shift
    (self : Code) (inp : option stream) (out : sink) (bs lim : Z) (code_pt : Z) (c : Context)
    (pre ops rest : list Token) :
  1 <= bs ->
  reachable self (Context_init inp out bs lim) code_pt c ->
  tokens self = pre ++ ops ++ rest ->
  code_pt = Z.of_nat (length pre) ->
  Forall forward_or_backward ops ->
  num_cycles_left c < 0 \/ Z.of_nat (length ops) <= num_cycles_left c ->
  Code_iterate (length ops) self code_pt c
  = Some (code_pt + Z.of_nat (length ops),
          set_ptr ((ptr c + net_shift ops) mod bs)
            (set_num_cycles_left (num_cycles_left c - Z.of_nat (length ops)) c)) /\
  (net_shift ops mod bs = 0 -> (ptr c + net_shift ops) mod bs = ptr c).
Proof.
  intros Hbs Hreach Htok -> Hops Hfuel.
  destruct (reachable_inv _ _ _ _ _ _ _ Hreach) as (_ & _ & Hlen & Hcur).
  specialize (Hcur Hbs).
  assert (Hbs' : Z.of_nat (length (buffer c)) = bs) by lia.
  split.
  - destruct self as [toks]. simpl in Htok. subst toks.
    rewrite (moves_run ops pre rest c Hops Hcur Hfuel), Hbs'. reflexivity.
  - intros Hzero. unfold cursor_ok in Hcur.
    rewrite Z.add_mod, Hzero, Z.add_0_r, Z.mod_mod by lia.
    apply Z.mod_small. lia.
Qed.

Lemma cursor_moves_by_net_shift_witness :
  Code_iterate (length [ForwardToken; ForwardToken; ForwardToken])
    (mkCode [ForwardToken; ForwardToken; ForwardToken; ExitToken]) 0 (Context_init None bytes_sink 3 5)
  = Some (0 + Z.of_nat (length [ForwardToken; ForwardToken; ForwardToken]),
          set_ptr ((ptr (Context_init None bytes_sink 3 5)
                    + net_shift [ForwardToken; ForwardToken; ForwardToken]) mod 3)
            (set_num_cycles_left
               (num_cycles_left (Context_init None bytes_sink 3 5)
                - Z.of_nat (length [ForwardToken; ForwardToken; ForwardToken]))
               (Context_init None bytes_sink 3 5))).
Proof.
  refine (proj1 (cursor_moves_by_net_shift
                   (mkCode [ForwardToken; ForwardToken; ForwardToken; ExitToken])
                   None bytes_sink 3 5 0 (Context_init None bytes_sink 3 5)
                   [] [ForwardToken; ForwardToken; ForwardToken] [ExitToken]
                   _ _ _ _ _ _)).
  - lia.
  - apply reachable_start.
  - reflexivity.
  - reflexivity.
  - repeat (apply List.Forall_cons; [left; reflexivity|]). apply List.Forall_nil.
  - right. simpl. lia.
Defined.

Lemma print_exec (c : Context) (v : Z) :
  cursor_ok c -> buffer c !! Z.to_nat (ptr c) = Some v -> 0 <= v < 256 ->
  sink_takes (output_kind c) v ->
  Token_exec PrintToken c = (Ok (-1), set_output_file (output_file c ++ [v]) c).
Proof.
  intros Hcur Hv Hrange Hsink.
  unfold Token_exec, bind, ret, lift, Context_current_value, Context_write.
  rewrite (getitem_lookup _ _ _ (proj1 Hcur) Hv), (bytes_singleton v Hrange).
  destruct (output_kind c) as [encodes| |]; simpl in Hsink |- *.
  - rewrite Hsink. reflexivity.
  - reflexivity.
  - contradiction.
Qed.

(** Reading then printing echoes: a [ReadToken] followed by a
    [PrintToken], run from a state of a run on a tape of at least one cell
    with an input that yields bytes and a sink that takes the byte read,
    appends to the sink the byte taken from the input, or 0 when the
    input is absent or has nothing left, and leaves that byte in the
    current cell. *)
Theorem read_then_print_echoes
    (self : Code) (inp : option stream) (out : sink) (bs lim : Z) (code_pt : Z) (c : Context) :
  1 <= bs ->
  reachable self (Context_init inp out bs lim) code_pt c ->
  getitem (tokens self) code_pt = Ok ReadToken ->
  getitem (tokens self) (code_pt + 1) = Ok PrintToken ->
  byte_input (input_file c) ->
  sink_takes out (input_head (input_file c) mod 256) ->
  num_cycles_left c <> 0 -> num_cycles_left c <> 1 ->
  Code_iterate 2 self code_pt c
  = Some (code_pt + 2,
          set_output_file (output_file c ++ [input_head (input_file c) mod 256])
            (set_buffer
               (<[Z.to_nat (ptr c) := input_head (input_file c) mod 256]> (buffer c))
               (set_input_file (input_tail (input_file c))
                  (set_num_cycles_left (num_cycles_left c - 2) c)))).
Proof.
  intros Hbs Hreach Hf1 Hf2 Hbytes Hsink Hn0 Hn1.
  pose proof (Code_exec_iter_read self inp out bs lim code_pt c Hbs Hreach Hf1 Hn0 Hbytes)
    as Hs1.
  rewrite <- (reachable_output_kind _ _ _ _ _ _ _ Hreach) in Hsink.
  set (b := input_head (input_file c) mod 256) in *.
  set (c1 := set_buffer (<[Z.to_nat (ptr c) := b]> (buffer c))
               (set_input_file (input_tail (input_file c)) (tick c))) in *.
  destruct (reachable_inv _ _ _ _ _ _ _ Hreach) as (_ & _ & _ & Hcur).
  specialize (Hcur Hbs).
  assert (Hcur1 : cursor_ok (tick c1)).
  { unfold cursor_ok, c1. simpl. rewrite length_insert. exact Hcur. }
  assert (Hv1 : buffer (tick c1) !! Z.to_nat (ptr (tick c1)) = Some b).
  { unfold c1. simpl. apply list_lookup_insert_eq. unfold cursor_ok in Hcur. lia. }
  assert (Hb : 0 <= b < 256) by (apply Z.mod_pos_bound; lia).
  pose proof (print_exec (tick c1) b Hcur1 Hv1 Hb Hsink) as Hexec.
  assert (Hs2 : Code_exec_iter self (code_pt + 1) c1
                = (Ok (Some (code_pt + 1 + 1)),
                   set_output_file (output_file (tick c1) ++ [b]) (tick c1))).
  { apply (Code_exec_iter_dispatch self (code_pt + 1) c1 PrintToken _ Hf2);
      [discriminate|unfold c1; simpl; lia|exact Hexec]. }
  cbn [Code_iterate]. rewrite Hs1, Hs2.
  f_equal. f_equal; [lia|].
  unfold c1, tick, set_output_file, set_buffer, set_input_file, set_num_cycles_left.
  simpl. f_equal. lia.
Qed.

Lemma read_then_print_echoes_witness :
  Code_iterate 2 (mkCode [ReadToken; PrintToken; ExitToken]) 0
    (Context_init (Some (str_stream [65])) bytes_sink 1 5)
  = Some (0 + 2,
          set_output_file
            (output_file (Context_init (Some (str_stream [65])) bytes_sink 1 5)
             ++ [input_head (input_file (Context_init (Some (str_stream [65])) bytes_sink 1 5)) mod 256])
            (set_buffer
               (<[Z.to_nat (ptr (Context_init (Some (str_stream [65])) bytes_sink 1 5)) :=
                  input_head (input_file (Context_init (Some (str_stream [65])) bytes_sink 1 5))
                  mod 256]>
                  (buffer (Context_init (Some (str_stream [65])) bytes_sink 1 5)))
               (set_input_file
                  (input_tail (input_file (Context_init (Some (str_stream [65])) bytes_sink 1 5)))
                  (set_num_cycles_left
                     (num_cycles_left (Context_init (Some (str_stream [65])) bytes_sink 1 5) - 2)
                     (Context_init (Some (str_stream [65])) bytes_sink 1 5))))).
Proof.
  apply (read_then_print_echoes (mkCode [ReadToken; PrintToken; ExitToken])
           (Some (str_stream [65])) bytes_sink 1 5 0 (Context_init (Some (str_stream [65])) bytes_sink 1 5)).
  - lia.
  - apply reachable_start.
  - reflexivity.
  - reflexivity.
  - simpl. repeat constructor; lia.
  - exact I.
  - simpl. lia.
  - simpl. lia.
Defined.
